(** * ke2sql: the KE EMu record transformation engine

    A shallow embedding of [ke2sql/legacy/keemu/base.py] (class
    [KeemuBaseMixin]) and the properties of its admission filter, record
    transformer, field classifier, index strategist and task identity.

    Python objects are modelled by the inductive [value]; a raw record is
    the attribute dictionary of the object the parser yields; Python
    exceptions are the [Raise] results of the [res] monad; the generator
    [records] is run over a finite stream and produces the trace of what it
    yields, deletes and logs. *)

From stdpp Require Import gmap strings list fin_maps pretty.
From Stdlib Require Import ZArith Ascii String.

Local Open Scope string_scope.
Local Open Scope Z_scope.
Local Open Scope list_scope.

(** ** Python values *)

#[warnings="-register-all"]
Inductive value : Type :=
  | PyNone
  | PyBool (b : bool)
  | PyInt (n : Z)
  | PyStr (s : string)
  | PyList (items : list value)
  | PyDict (entries : gmap string value).

(** Truth value testing: [None], [False], [0], [''], [[]] and [{}] are
    false, everything else is true. *)
Definition truthy (v : value) : bool :=
  match v with
  | PyNone => false
  | PyBool b => b
  | PyInt n => negb (n =? 0)
  | PyStr s => negb (String.eqb s "")
  | PyList items => match items with [] => false | _ => true end
  | PyDict entries => negb (bool_decide (entries = ∅))
  end.

(** [type(v) != list] *)
Definition type_is_not_list (v : value) : bool :=
  match v with
  | PyList _ => false
  | _ => true
  end.

(** ** Exceptions *)

Inductive exn : Type :=
  | AttributeError (attr : string)
  | KeyError (key : string)
  | OperatorError (msg : string).

Inductive res (A : Type) : Type :=
  | Ok (a : A)
  | Raise (e : exn).
Arguments Ok {A} a.
Arguments Raise {A} e.

Definition res_bind {A B} (m : res A) (k : A → res B) : res B :=
  match m with
  | Ok a => k a
  | Raise e => Raise e
  end.

Declare Scope res_scope.
Delimit Scope res_scope with res.
Notation "'let*' x := m 'in' k" := (res_bind m (fun x => k))
  (at level 10, x pattern, m at level 100, k at level 200) : res_scope.

Fixpoint res_map {A B} (f : A → res B) (l : list A) : res (list B) :=
  match l with
  | [] => Ok []
  | x :: xs =>
      (let* y := f x in
       let* ys := res_map f xs in
       Ok (y :: ys))%res
  end.

Fixpoint res_fold {A B} (f : A → B → res A) (l : list B) (a : A) : res A :=
  match l with
  | [] => Ok a
  | x :: xs => (let* a' := f a x in res_fold f xs a')%res
  end.

(** ** Raw records *)

(** Modelled from the spec: the raw records that [Parser] yields; the
    parser, [ke2sql.lib.parser], is outside this development.  The
    specification has them as attribute-addressable objects, one
    attribute per exported field, that may lack any given attribute.  A
    record is modelled as a plain object, by its attribute dictionary: a
    lookup with a default, [getattr(record, name, None)], gives the
    default for a missing attribute, which is how the code tolerates
    absence, and a plain access [record.name] raises [AttributeError]. *)
Abbreviation record := (gmap string value).

(** [record.name]: attribute access, [AttributeError] when absent. *)
Definition getattr (r : record) (name : string) : res value :=
  match r !! name with
  | Some v => Ok v
  | None => Raise (AttributeError name)
  end.

(** [getattr(record, name, dflt)] *)
Definition getattr_default (r : record) (name : string) (dflt : value) : value :=
  match r !! name with
  | Some v => v
  | None => dflt
  end.

(** ** Strings *)

Definition is_upper (c : ascii) : bool :=
  (nat_of_ascii "A" <=? nat_of_ascii c)%nat && (nat_of_ascii c <=? nat_of_ascii "Z")%nat.

Definition lower_char (c : ascii) : ascii :=
  if is_upper c then ascii_of_nat (nat_of_ascii c + 32) else c.

(** [s.lower()] on the letters A-Z.  No other character is lowered to
    [y], so the comparison with ['y'] is the one of Python. *)
Fixpoint lower (s : string) : string :=
  match s with
  | EmptyString => EmptyString
  | String c rest => String (lower_char c) (lower rest)
  end.

(** [v.lower()]: only strings have the method. *)
Definition str_lower (v : value) : res string :=
  match v with
  | PyStr s => Ok (lower s)
  | _ => Raise (AttributeError "lower")
  end.

(** [needle in hay] on strings. *)
Fixpoint str_contains (needle hay : string) : bool :=
  String.prefix needle hay ||
  match hay with
  | EmptyString => false
  | String _ rest => str_contains needle rest
  end.

(** The longest run of letters A-Z at the start of a string, and the rest. *)
Fixpoint upper_run (s : string) : string * string :=
  match s with
  | EmptyString => (EmptyString, EmptyString)
  | String c rest =>
      if is_upper c
      then let '(u, r) := upper_run rest in (String c u, r)
      else (EmptyString, s)
  end.

(** [re.compile('(^[A-Z]+(\[\])?)').match(s)], returning group 1 of the
    match, or [None] when there is no match.  Both quantifiers are greedy:
    [[A-Z]+] takes the whole leading run of capitals (at least one), and the
    optional group takes the bracket pair when it comes next. *)
Definition regex_match (s : string) : option string :=
  let '(u, r) := upper_run s in
  match u with
  | EmptyString => None
  | _ => Some (u +:+ (if String.prefix "[]" r then "[]" else ""))
  end.

(** ** Declarations of a module

    What a concrete task class declares on top of the mixin: its name, its
    field mappings [(ke_field, alias)], its columns [(name, definition)],
    its filters (a dictionary, kept as the list of its items in iteration
    order) and the luigi parameters it adds. *)

Definition filter_operator : Type := value → value → res value.

(** A luigi parameter with the value a task instance holds for it,
    already serialised. *)
Record param : Type := {
  param_name : string;
  significant : bool;
  serialized : string
}.

Record KeemuClass : Type := {
  module_name : string;
  fields : list (string * string);
  columns : list (string * string);
  filters : list (string * list (filter_operator * value));
  task_params : list param
}.

(** The [columns] attribute of [KeemuBaseMixin] itself. *)
Definition base_columns : list (string * string) :=
  [ ("irn", "INTEGER PRIMARY KEY");
    ("created", "TIMESTAMP DEFAULT CURRENT_TIMESTAMP");
    ("modified", "TIMESTAMP");
    ("deleted", "TIMESTAMP");
    ("properties", "JSONB");
    ("import_date", "INTEGER") ].

(** The [table] property: by default the module name. *)
Definition table (c : KeemuClass) : string := module_name c.

(** [dict(pairs)]: a later pair overrides an earlier one with the same key. *)
Definition dict {V} (pairs : list (string * V)) : gmap string V :=
  fold_left (λ d kv, <[kv.1 := kv.2]> d) pairs ∅.

(** [_column_is_array]: ['[]' in col_def]. *)
Definition _column_is_array (col_def : string) : bool :=
  str_contains "[]" col_def.

(** [get_column_types]: the leading type token of every column definition;
    [regex.match] gives [None] when a definition does not start with a
    capital, and [None.group] raises. *)
Definition get_column_types (c : KeemuClass) : res (list (string * string)) :=
  res_map (λ col,
    match regex_match col.2 with
    | Some group1 => Ok (col.1, group1)
    | None => Raise (AttributeError "group")
    end) (columns c).

(** ** Task instances *)

Record KeemuBaseMixin : Type := {
  cls : KeemuClass;
  date : Z;
  limit : option Z;
  columns_dict : gmap string string;
  _property_fields : list (string * string);
  _metadata_fields : list (string * string);
  _array_fields : list string;
  task_id : string;
  record_count : Z;
  insert_count : Z
}.

(** [str(x)] of the two parameters of the mixin. *)
Definition str_int (n : Z) : string := pretty n.

Definition str_limit (l : option Z) : string :=
  match l with
  | Some n => str_int n
  | None => "None"
  end.

(** The parameters of an instance by name, as luigi's [get_params] finds
    them among the attributes of the task class, each with the value the
    instance holds for it: [date] (significant by default) and [limit]
    (declared [significant=False]) of the mixin, then those the task class
    declares.  They are class attributes: a parameter that the task class
    declares under the name [date] or [limit] replaces the one of the
    mixin, and of two declarations of one name the later one stands. *)
Definition param_kwargs (c : KeemuClass) (date : Z) (limit : option Z)
  : gmap string param :=
  dict ((λ p, (param_name p, p)) <$>
        ({| param_name := "date"; significant := true; serialized := str_int date |} ::
         {| param_name := "limit"; significant := false;
            serialized := str_limit limit |} ::
         task_params c)).

(** luigi's [to_str_params]: the serialised parameters by name, restricted
    to the significant ones on demand. *)
Definition to_str_params (only_significant : bool) (params : gmap string param)
  : gmap string string :=
  serialized <$>
    filter (λ kv, negb only_significant || significant kv.2 = true) params.

(** The loop of [__init__] that separates the field mappings; the state
    is the pair of [_property_fields] and [_metadata_fields]. *)
Definition separate_fields (columns_dict : gmap string string)
    (fields : list (string * string))
  : list (string * string) * list (string * string) :=
  fold_left (λ acc field,
    if bool_decide (field.2 ∈ dom columns_dict)
    then (acc.1, acc.2 ++ [field])
    else (acc.1 ++ [field], acc.2)) fields ([], []).

Section Init.
(** luigi's [task_id_str(task_family, params)], a function of the library. *)
Variable task_id_str : string → gmap string string → string.

Definition __init__ (c : KeemuClass) (date : Z) (limit : option Z)
  : res KeemuBaseMixin :=
  let columns_dict := dict (columns c) in
  let separated := separate_fields columns_dict (fields c) in
  (let* types := get_column_types c in
   let array_fields :=
     (filter (λ col, _column_is_array col.2 = true) types).*1 in
   Ok {| cls := c;
         date := date;
         limit := limit;
         columns_dict := columns_dict;
         _property_fields := separated.1;
         _metadata_fields := separated.2;
         _array_fields := array_fields;
         task_id :=
           task_id_str (table c)
             (to_str_params true (param_kwargs c date limit));
         record_count := 0;
         insert_count := 0 |})%res.
End Init.

(** ** Schema and index strategy *)

Definition create_index_query (table idx_type col_name : string) : string :=
  "CREATE INDEX ON " +:+ table +:+ " USING " +:+ idx_type +:+
  " (" +:+ col_name +:+ ")".

(** [ensure_indexes]: the statements handed to [cursor.execute], in order. *)
Definition ensure_indexes (self : KeemuBaseMixin) : res (list string) :=
  (let* types := get_column_types (cls self) in
   Ok (fold_left (λ executed col,
         if bool_decide (col.1 ∈ ["irn"; "properties"])
         then executed
         else executed ++
              [create_index_query (table (cls self))
                 (if _column_is_array col.2 then "GIN" else "BTREE")
                 col.1])
       types []))%res.

(** ** Admission *)

Definition _is_web_publishable (r : record) : res bool :=
  (let* flag := getattr r "AdmPublishWebNoPasswordFlag" in
   let* lowered := str_lower flag in
   Ok (String.eqb lowered "y"))%res.

(** The inner loop of [_apply_filters]: [false] as soon as an operator
    gives a false value. *)
Fixpoint check_filters (v : value) (pairs : list (filter_operator * value))
  : res bool :=
  match pairs with
  | [] => Ok true
  | (filter_operator, filter_value) :: rest =>
      (let* passed := filter_operator v filter_value in
       if negb (truthy passed) then Ok false else check_filters v rest)%res
  end.

(** The outer loop of [_apply_filters] over the items of [self.filters]. *)
Fixpoint apply_filter_items (r : record)
    (items : list (string * list (filter_operator * value))) : res bool :=
  match items with
  | [] => Ok true
  | (field, pairs) :: rest =>
      let v := getattr_default r field PyNone in
      (let* passed := check_filters v pairs in
       if passed then apply_filter_items r rest else Ok false)%res
  end.

Definition _apply_filters (self : KeemuBaseMixin) (r : record) : res bool :=
  apply_filter_items r (filters (cls self)).

(** The condition of [records]:
    [self._is_web_publishable(record) and self._apply_filters(record)]. *)
Definition is_admitted (self : KeemuBaseMixin) (r : record) : res bool :=
  (let* publishable := _is_web_publishable r in
   if publishable then _apply_filters self r else Ok false)%res.

(** ** Transformation *)

(** [get_properties]: the dictionary comprehension over [_property_fields]. *)
Definition get_properties (self : KeemuBaseMixin) (r : record)
  : gmap string value :=
  fold_left (λ d field,
    if truthy (getattr_default r field.1 PyNone)
    then <[field.2 := getattr_default r field.1 PyNone]> d
    else d) (_property_fields self) ∅.

(** [d[key]] *)
Definition getitem (d : gmap string value) (key : string) : res value :=
  match d !! key with
  | Some v => Ok v
  | None => Raise (KeyError key)
  end.

(** One round of the loop of [record_to_dict]. *)
Definition set_metadata (self : KeemuBaseMixin) (r : record)
    (record_dict : gmap string value) (field : string * string)
  : res (gmap string value) :=
  let ke_field := field.1 in
  let alias := field.2 in
  let record_dict := <[alias := getattr_default r ke_field PyNone]> record_dict in
  (let* v := getitem record_dict alias in
   if truthy v && bool_decide (alias ∈ _array_fields self)
   then
     let* v := getitem record_dict alias in
     if type_is_not_list v
     then
       let* v := getitem record_dict alias in
       Ok (<[alias := PyList [v]]> record_dict)
     else Ok record_dict
   else Ok record_dict)%res.

Definition record_to_dict (self : KeemuBaseMixin) (r : record)
  : res (gmap string value) :=
  (let* irn := getattr r "irn" in
   let record_dict : gmap string value :=
     <["import_date" := PyInt (date self)]>
       (<["properties" := PyDict (get_properties self r)]>
          (<["irn" := irn]> ∅)) in
   res_fold (set_metadata self r) (_metadata_fields self) record_dict)%res.

(** ** The record stream

    What a run of the generator [records] does, in order: the rows it
    yields, the records it hands to [delete_record], and its log lines. *)

Inductive event : Type :=
  | Yield (row : gmap string value)
  | DeleteRecord (r : record)
  | LogDebug (count : Z)
  | LogInfo (inserted : Z) (table_name : string).

(** A computation on the task instance that leaves a trace and may raise. *)
Definition Gen (A : Type) : Type :=
  KeemuBaseMixin → list event * KeemuBaseMixin * res A.

Definition gen_ret {A} (a : A) : Gen A := λ self, ([], self, Ok a).

Definition gen_bind {A B} (m : Gen A) (k : A → Gen B) : Gen B :=
  λ self,
    match m self with
    | (trace, self', Ok a) =>
        match k a self' with
        | (trace', self'', b) => (trace ++ trace', self'', b)
        end
    | (trace, self', Raise e) => (trace, self', Raise e)
    end.

Declare Scope gen_scope.
Delimit Scope gen_scope with gen.
Notation "'let*' x := m 'in' k" := (gen_bind m (fun x => k))
  (at level 10, x pattern, m at level 100, k at level 200) : gen_scope.

Definition gen_lift {A} (m : res A) : Gen A := λ self, ([], self, m).
Definition gen_self : Gen KeemuBaseMixin := λ self, ([], self, Ok self).
Definition gen_emit (ev : event) : Gen unit := λ self, ([ev], self, Ok tt).

Definition set_record_count (n : Z) (self : KeemuBaseMixin) : KeemuBaseMixin :=
  {| cls := cls self; date := date self; limit := limit self;
     columns_dict := columns_dict self;
     _property_fields := _property_fields self;
     _metadata_fields := _metadata_fields self;
     _array_fields := _array_fields self;
     task_id := task_id self;
     record_count := n;
     insert_count := insert_count self |}.

Definition set_insert_count (n : Z) (self : KeemuBaseMixin) : KeemuBaseMixin :=
  {| cls := cls self; date := date self; limit := limit self;
     columns_dict := columns_dict self;
     _property_fields := _property_fields self;
     _metadata_fields := _metadata_fields self;
     _array_fields := _array_fields self;
     task_id := task_id self;
     record_count := record_count self;
     insert_count := n |}.

Definition gen_update (f : KeemuBaseMixin → KeemuBaseMixin) : Gen unit :=
  λ self, ([], f self, Ok tt).

(** [delete_record] is abstract in the mixin; a task overrides it.  Its
    call is kept as the signal that the record is to be deleted. *)
Definition delete_record (r : record) : Gen unit := gen_emit (DeleteRecord r).

(** [self.limit and self.record_count >= self.limit] *)
Definition limit_reached (self : KeemuBaseMixin) : bool :=
  match limit self with
  | None => false
  | Some n => negb (n =? 0) && (n <=? record_count self)
  end.

(** The body of the loop of [records]; the result says whether the loop
    is left by [break]. *)
Definition records_body (r : record) : Gen bool :=
  (let* _ := gen_update (λ self, set_record_count (record_count self + 1) self) in
   let* self := gen_self in
   let* admitted := gen_lift (is_admitted self r) in
   let* _ :=
     (if admitted : bool
      then
        let* _ := gen_update (λ self, set_insert_count (insert_count self + 1) self) in
        let* self := gen_self in
        let* row := gen_lift (record_to_dict self r) in
        gen_emit (Yield row)
      else delete_record r) in
   let* self := gen_self in
   if limit_reached self
   then gen_ret true
   else
     let* _ :=
       (if record_count self mod 1000 =? 0
        then gen_emit (LogDebug (record_count self))
        else gen_ret tt) in
     gen_ret false)%gen.

(** A [for] loop whose body may [break]. *)
Fixpoint gen_for {A} (body : A → Gen bool) (l : list A) : Gen bool :=
  match l with
  | [] => gen_ret false
  | x :: xs =>
      (let* stop := body x in
       if stop : bool then gen_ret true else gen_for body xs)%gen
  end.

(** [records], run until the generator is exhausted; [stream] is what
    [Parser(self.input().path)] yields.  The time the run takes, which the
    last log line also reports, is left out. *)
Definition records (stream : list record) : Gen unit :=
  (let* _ := gen_for records_body stream in
   let* self := gen_self in
   gen_emit (LogInfo (insert_count self) (table (cls self))))%gen.

(** ** Notions used to state the properties *)

(** The rows and deletions of a trace, without the log lines. *)
Definition is_output (ev : event) : bool :=
  match ev with
  | Yield _ | DeleteRecord _ => true
  | LogDebug _ | LogInfo _ _ => false
  end.

Definition outputs (trace : list event) : list event :=
  filter (λ ev, is_output ev = true) trace.

(** The two paths of a record through the loop of [records]: admitted
    and yielded as a row, or rejected and handed to [delete_record]. *)
Definition takes_path (self : KeemuBaseMixin) (r : record) (ev : event) : Prop :=
  (is_admitted self r = Ok true ∧
   ∃ row, record_to_dict self r = Ok row ∧ ev = Yield row) ∨
  (is_admitted self r = Ok false ∧ ev = DeleteRecord r).

(** A filter pair passes (fails) on a record when its operator returns a
    true (false) value on the resolved field value. *)
Definition passes (r : record) (field : string)
    (pair : filter_operator * value) : Prop :=
  ∃ v, pair.1 (getattr_default r field PyNone) pair.2 = Ok v ∧ truthy v = true.

Definition fails (r : record) (field : string)
    (pair : filter_operator * value) : Prop :=
  ∃ v, pair.1 (getattr_default r field PyNone) pair.2 = Ok v ∧ truthy v = false.

Definition rule_passes (r : record)
    (item : string * list (filter_operator * value)) : Prop :=
  Forall (passes r item.1) item.2.

(** A string made of the letters A-Z only. *)
Fixpoint all_upper (s : string) : bool :=
  match s with
  | EmptyString => true
  | String c rest => is_upper c && all_upper rest
  end.

(** The type declaration contains the array marker. *)
Definition contains_array_marker (decl : string) : Prop :=
  ∃ before after, decl = before +:+ "[]" +:+ after.

(** The array marker comes right after the leading type token. *)
Definition array_marker_follows_type (decl : string) : Prop :=
  ∃ token after,
    decl = token +:+ "[]" +:+ after ∧ token ≠ "" ∧ all_upper token = true.

(** The strings matched by the pattern [[A-Z]+(\[\])?]: a type token, or
    a type token followed by the array marker. *)
Inductive type_token : string → Prop :=
  | token_scalar (u : string) :
      u ≠ "" → all_upper u = true → type_token u
  | token_array (u : string) :
      u ≠ "" → all_upper u = true → type_token (u +:+ "[]").

(** The names of the declared columns. *)
Definition column_names (c : KeemuClass) : list string := (columns c).*1.

(** A resolved value that is absent ([None]) or empty (the empty string or
    the empty list), in the words of the specification. *)
Definition empty_or_absent (v : value) : bool :=
  match v with
  | PyNone => true
  | PyStr s => String.eqb s ""
  | PyList items => match items with [] => true | _ => false end
  | _ => false
  end.

(** A parameter that the task class holds: the last one it declares
    under its name. *)
Definition class_parameter (c : KeemuClass) (p : param) : Prop :=
  ∃ before after,
    task_params c = before ++ p :: after ∧
    param_name p ∉ param_name <$> after.

(** The significant parameters of a transformation unit, each with its
    serialised value: the date of the mixin, unless the task class declares
    a parameter of that name, and the parameters that the task class holds
    and declares significant.  The limit of the mixin is none of them. *)
Definition significant_parameter (c : KeemuClass) (date : Z)
    (name value : string) : Prop :=
  (name = "date" ∧ value = str_int date ∧
   "date" ∉ param_name <$> task_params c) ∨
  (∃ p, class_parameter c p ∧ significant p = true ∧
        param_name p = name ∧ serialized p = value).

(** The record can be processed: it takes one of the two paths. *)
Definition processable (self : KeemuBaseMixin) (r : record) : Prop :=
  ∃ ev, takes_path self r ev.

(** The debug line at the end of a round of the loop of [records], which
    is skipped when the loop is left. *)
Definition debug_line (self : KeemuBaseMixin) : list event :=
  if limit_reached self then []
  else if record_count self mod 1000 =? 0
       then [LogDebug (record_count self)]
       else [].

(** The instance after a run that saw [seen] records and inserted
    [inserted] of them. *)
Definition with_counts (seen inserted : Z) (self : KeemuBaseMixin) : KeemuBaseMixin :=
  set_insert_count inserted (set_record_count seen self).

(** The value [record_to_dict] stores for a metadata alias: wrapped in a
    list when it is true, the alias is an array field and it is no list. *)
Definition stored_value (self : KeemuBaseMixin) (alias : string) (v : value) : value :=
  if truthy v && bool_decide (alias ∈ _array_fields self) && type_is_not_list v
  then PyList [v]
  else v.

(** ** A module to run the engine on

    A catalogue module in the style of the tasks built on the mixin: two
    array columns, a scalar one, a column whose type carries a length, two
    property fields and a filter on the record status. *)

(** An operator that a task could declare: true on two equal strings and
    on two [None]s, false on everything else (on strings and on absent
    fields it is [lambda value, expected: value == expected]). *)
Definition equals : filter_operator :=
  λ v expected,
    match v, expected with
    | PyStr a, PyStr b => Ok (PyBool (String.eqb a b))
    | PyNone, PyNone => Ok (PyBool true)
    | _, _ => Ok (PyBool false)
    end.

(** An operator that cannot be applied to the field it is declared on. *)
Definition unusable : filter_operator :=
  λ _ _, Raise (OperatorError "unsupported operand").

(** A stand-in for luigi's [task_id_str]: the family followed by every
    parameter it is given. *)
Definition joined_task_id (family : string) (params : gmap string string) : string :=
  family +:+
  foldr (λ kv acc, "_" +:+ kv.1 +:+ "=" +:+ kv.2 +:+ acc) "" (map_to_list params).

Definition catalogue : KeemuClass :=
  {| module_name := "catalogue";
     fields :=
       [ ("ColKind", "kind");
         ("LocCurrentLocation", "locations");
         ("MulMultiMediaRef", "multimedia");
         ("NteNote", "collector_note");
         ("NteCount", "note_count") ];
     columns :=
       base_columns ++
       [ ("kind", "TEXT");
         ("locations", "TEXT[]");
         ("multimedia", "INTEGER[]");
         ("codes", "VARCHAR(10)[]") ];
     filters := [ ("status", [ (equals, PyStr "verified") ]) ];
     task_params := [] |}.

(** The same module with a second filter whose operator raises. *)
Definition guarded_catalogue : KeemuClass :=
  {| module_name := "catalogue";
     fields := fields catalogue;
     columns := columns catalogue;
     filters :=
       [ ("status", [ (equals, PyStr "verified"); (unusable, PyNone) ]);
         ("kind", [ (unusable, PyNone) ]) ];
     task_params :=
       [ {| param_name := "verbose"; significant := false; serialized := "True" |} ] |}.

(** The same module, declaring a [date] parameter of its own that is not
    significant. *)
Definition undated_catalogue : KeemuClass :=
  {| module_name := "catalogue";
     fields := fields catalogue;
     columns := columns catalogue;
     filters := filters catalogue;
     task_params :=
       [ {| param_name := "date"; significant := false; serialized := "20240101" |} ] |}.

Definition catalogue_task (limit : option Z) : KeemuBaseMixin :=
  {| cls := catalogue;
     date := 20240101;
     limit := limit;
     columns_dict := dict (columns catalogue);
     _property_fields := [ ("NteNote", "collector_note"); ("NteCount", "note_count") ];
     _metadata_fields :=
       [ ("ColKind", "kind");
         ("LocCurrentLocation", "locations");
         ("MulMultiMediaRef", "multimedia") ];
     _array_fields := [ "locations"; "multimedia" ];
     task_id :=
       joined_task_id "catalogue"
         (to_str_params true (param_kwargs catalogue 20240101 limit));
     record_count := 0;
     insert_count := 0 |}.

Definition guarded_task (limit : option Z) : KeemuBaseMixin :=
  {| cls := guarded_catalogue;
     date := 20240101;
     limit := limit;
     columns_dict := dict (columns catalogue);
     _property_fields := _property_fields (catalogue_task limit);
     _metadata_fields := _metadata_fields (catalogue_task limit);
     _array_fields := _array_fields (catalogue_task limit);
     task_id :=
       joined_task_id "catalogue"
         (to_str_params true (param_kwargs guarded_catalogue 20240101 limit));
     record_count := 0;
     insert_count := 0 |}.

(** A publishable, verified record: a scalar location, an empty note, and
    the number zero as multimedia reference and as note count. *)
Definition specimen : record :=
  <["AdmPublishWebNoPasswordFlag" := PyStr "Y"]>
    (<["irn" := PyInt 1]>
       (<["status" := PyStr "verified"]>
          (<["LocCurrentLocation" := PyStr "Room 3"]>
             (<["NteNote" := PyStr ""]>
                (<["MulMultiMediaRef" := PyInt 0]>
                   (<["NteCount" := PyInt 0]> ∅)))))).

(** A publishable record that the status filter rejects. *)
Definition draft : record :=
  <["AdmPublishWebNoPasswordFlag" := PyStr "y"]>
    (<["irn" := PyInt 2]> (<["status" := PyStr "draft"]> ∅)).

(** A record that is not to be published. *)
Definition unpublished : record :=
  <["AdmPublishWebNoPasswordFlag" := PyStr "N"]> (<["irn" := PyInt 3]> ∅).

(** A record without the publication flag. *)
Definition unflagged : record :=
  <["irn" := PyInt 4]> (<["status" := PyStr "verified"]> ∅).

(** A record whose publication flag was exported twice. *)
Definition twice_flagged : record :=
  <["AdmPublishWebNoPasswordFlag" := PyList [PyStr "Y"; PyStr "Y"]]>
    (<["irn" := PyInt 6]> ∅).

(** A publishable, verified record without [irn]. *)
Definition nameless : record :=
  <["AdmPublishWebNoPasswordFlag" := PyStr "Y"]>
    (<["status" := PyStr "verified"]> ∅).

(** A publishable, verified record with a collector note. *)
Definition annotated : record :=
  <["AdmPublishWebNoPasswordFlag" := PyStr "Y"]>
    (<["irn" := PyInt 5]>
       (<["status" := PyStr "verified"]>
          (<["NteNote" := PyStr "rare specimen"]> ∅))).

(** The row of [specimen] in the catalogue module. *)
Definition specimen_row : gmap string value :=
  <["multimedia" := PyInt 0]>
    (<["locations" := PyList [PyStr "Room 3"]]>
       (<["kind" := PyNone]>
          (<["import_date" := PyInt 20240101]>
             (<["properties" := PyDict ∅]>
                (<["irn" := PyInt 1]> ∅))))).

(** The index statements of the catalogue module. *)
Definition catalogue_indexes : list string :=
  [ "CREATE INDEX ON catalogue USING BTREE (created)";
    "CREATE INDEX ON catalogue USING BTREE (modified)";
    "CREATE INDEX ON catalogue USING BTREE (deleted)";
    "CREATE INDEX ON catalogue USING BTREE (import_date)";
    "CREATE INDEX ON catalogue USING BTREE (kind)";
    "CREATE INDEX ON catalogue USING GIN (locations)";
    "CREATE INDEX ON catalogue USING GIN (multimedia)";
    "CREATE INDEX ON catalogue USING BTREE (codes)" ].

(** ** Further notions on traces *)

(** The rows of a trace. *)
Definition yielded (trace : list event) : list (gmap string value) :=
  omap (λ ev, match ev with Yield row => Some row | _ => None end) trace.

(** The counts reported by the debug lines of a trace. *)
Definition debug_counts (trace : list event) : list Z :=
  omap (λ ev, match ev with LogDebug n => Some n | _ => None end) trace.

(** The summary lines of a trace. *)
Definition is_summary (ev : event) : bool :=
  match ev with
  | LogInfo _ _ => true
  | _ => false
  end.

Definition summaries (trace : list event) : list event :=
  filter (λ ev, is_summary ev = true) trace.

(** ** Further notions on declarations *)

(** The declaration starts with one of the letters A-Z. *)
Definition starts_with_capital (decl : string) : Prop :=
  ∃ c rest, decl = String c rest ∧ is_upper c = true.

(** The class with other column definitions. *)
Definition with_columns (cols : list (string * string)) (c : KeemuClass) : KeemuClass :=
  {| module_name := module_name c;
     fields := fields c;
     columns := cols;
     filters := filters c;
     task_params := task_params c |}.

(** ** More modules to run the engine on *)

(** The catalogue task with other filters. *)
Definition filtered_task
    (rules : list (string * list (filter_operator * value))) : KeemuBaseMixin :=
  {| cls :=
       {| module_name := "catalogue";
          fields := fields catalogue;
          columns := columns catalogue;
          filters := rules;
          task_params := [] |};
     date := 20240101;
     limit := None;
     columns_dict := dict (columns catalogue);
     _property_fields := _property_fields (catalogue_task None);
     _metadata_fields := _metadata_fields (catalogue_task None);
     _array_fields := _array_fields (catalogue_task None);
     task_id := task_id (catalogue_task None);
     record_count := 0;
     insert_count := 0 |}.

Definition status_rule : string * list (filter_operator * value) :=
  ("status", [ (equals, PyStr "verified") ]).

Definition kind_rule : string * list (filter_operator * value) :=
  ("ColKind", [ (equals, PyStr "specimen") ]).

(** A module with two source fields for one property, and a task of it. *)
Definition registry : KeemuClass :=
  {| module_name := "registry";
     fields :=
       [ ("DarCatalogNumber", "catalogNumber");
         ("RegRegistrationNumber", "catalogNumber");
         ("ColKind", "kind") ];
     columns := base_columns ++ [ ("kind", "TEXT") ];
     filters := [];
     task_params := [] |}.

Definition registry_task : KeemuBaseMixin :=
  {| cls := registry;
     date := 20240101;
     limit := None;
     columns_dict := dict (columns registry);
     _property_fields :=
       [ ("DarCatalogNumber", "catalogNumber");
         ("RegRegistrationNumber", "catalogNumber") ];
     _metadata_fields := [ ("ColKind", "kind") ];
     _array_fields := [];
     task_id :=
       joined_task_id "registry"
         (to_str_params true (param_kwargs registry 20240101 None));
     record_count := 0;
     insert_count := 0 |}.

(** A record with a catalogue number and no registration number. *)
Definition catalogued : record :=
  <["AdmPublishWebNoPasswordFlag" := PyStr "Y"]>
    (<["irn" := PyInt 7]>
       (<["DarCatalogNumber" := PyStr "BM 1"]>
          (<["ColKind" := PyStr "specimen"]> ∅))).

(** The same record as exported with an internal remark. *)
Definition catalogued_with_remark : record :=
  <["NteInternal" := PyStr "check label"]> catalogued.

(** ** The command that drops all tables ([ke2sql/commands/drop_tables.py]) *)

(** What the command does on the database, in order: the connection it
    opens, its calls of [db_drop_table], the commit and the closing of the
    connection. *)
Inductive db_event : Type :=
  | Connect
  | DropTable (name : string)
  | Commit
  | Close.

(** A command: what it did, and how it ended. *)
Definition Cmd (A : Type) : Type := list db_event * res A.

Definition cmd_ret {A} (a : A) : Cmd A := ([], Ok a).

Definition cmd_bind {A B} (m : Cmd A) (k : A → Cmd B) : Cmd B :=
  match m with
  | (done, Ok a) =>
      match k a with
      | (more, b) => (done ++ more, b)
      end
  | (done, Raise e) => (done, Raise e)
  end.

Declare Scope cmd_scope.
Delimit Scope cmd_scope with cmd.
Notation "'let*' x := m 'in' k" := (cmd_bind m (fun x => k))
  (at level 10, x pattern, m at level 100, k at level 200) : cmd_scope.

Definition cmd_emit (ev : db_event) : Cmd unit := ([ev], Ok tt).

Fixpoint cmd_for {A} (body : A → Cmd unit) (l : list A) : Cmd unit :=
  match l with
  | [] => cmd_ret tt
  | x :: xs => (let* _ := body x in cmd_for body xs)%cmd
  end.

Section DropTables.
(** [db_drop_table] of [ke2sql.lib.db], which is outside this development:
    whether the call for the table of a given name returns or raises. *)
Variable db_drop_table : string → res unit.

(** [db_drop_table(name, connection)] *)
Definition call_db_drop_table (name : string) : Cmd unit :=
  ([DropTable name], db_drop_table name).

(** [drop_tables]: [answer] is what [yesno] returns, the three classes are
    [EcatalogueTask], [ETaxonomyTask] and [EMultimediaTask], and
    [foreign_keys] holds the [table] of every foreign key that
    [dataset_get_foreign_keys()] returns. *)
Definition drop_tables (answer : bool)
    (EcatalogueTask ETaxonomyTask EMultimediaTask : KeemuClass)
    (foreign_keys : list string) : Cmd unit :=
  (let* _ := cmd_emit Connect in
   if answer
   then
     let* _ := call_db_drop_table "table_updates" in
     let* _ :=
       cmd_for (λ task, call_db_drop_table (module_name task))
         [EcatalogueTask; ETaxonomyTask; EMultimediaTask] in
     let* _ := cmd_for call_db_drop_table foreign_keys in
     let* _ := cmd_emit Commit in
     cmd_emit Close
   else cmd_ret tt)%cmd.
End DropTables.

(** The tables that [drop_tables] is to drop, in order. *)
Definition drop_targets (EcatalogueTask ETaxonomyTask EMultimediaTask : KeemuClass)
    (foreign_keys : list string) : list string :=
  "table_updates" ::
  module_name EcatalogueTask :: module_name ETaxonomyTask ::
  module_name EMultimediaTask :: foreign_keys.

(** A database on which one table cannot be dropped. *)
Definition locked (name : string) : string → res unit :=
  λ table_name,
    if String.eqb table_name name
    then Raise (OperatorError "table is locked")
    else Ok tt.

(** A closed list of strings does not have the given string. *)
Ltac not_in_list :=
  let Hin := fresh "Hin" in
  intros Hin;
  repeat (apply elem_of_cons in Hin as [Hin | Hin]; [discriminate Hin|]);
  by apply elem_of_nil in Hin.

#[local] Arguments String.append : simpl nomatch.

(** ** Strings *)

Lemma prefix_spec (p s : string) :
  String.prefix p s = true ↔ ∃ rest, s = p +:+ rest.
Proof.
  revert s. induction p as [|c p IH]; intros s; simpl.
  - split; [intros _; by exists s | by destruct s].
  - destruct s as [|d s]; simpl.
    + split; [done | intros [rest Hrest]; discriminate].
    + destruct (Ascii.ascii_dec c d) as [->|Hne].
      * rewrite IH. split; intros [rest Hrest]; exists rest.
        -- by rewrite Hrest.
        -- by injection Hrest.
      * split; [done | intros [rest Hrest]; injection Hrest; congruence].
Qed.

Lemma append_assoc (a b c : string) : (a +:+ b) +:+ c = a +:+ (b +:+ c).
Proof. induction a as [|x a IH]; simpl; [done | by rewrite IH]. Qed.

Lemma append_empty_r (a : string) : a +:+ "" = a.
Proof. induction a as [|x a IH]; simpl; [done | by rewrite IH]. Qed.

Lemma append_cancel_l (a b c : string) : a +:+ b = a +:+ c → b = c.
Proof. induction a as [|x a IH]; simpl; [done | intros [= H]; auto]. Qed.

Lemma append_char_cancel_r (a b : string) (x : ascii) :
  a +:+ String x "" = b +:+ String x "" → a = b.
Proof.
  revert b. induction a as [|y a IH]; intros [|z b]; simpl; try done.
  - intros [= -> H]. destruct b; discriminate.
  - intros [= -> H]. destruct a; discriminate.
  - intros [= -> H]. f_equal. by apply IH.
Qed.

Lemma str_contains_spec (needle hay : string) :
  str_contains needle hay = true ↔ ∃ before after, hay = before +:+ needle +:+ after.
Proof.
  induction hay as [|c hay IH]; cbn [str_contains].
  - rewrite orb_false_r, prefix_spec. split.
    + intros [rest ->]. by exists "", rest.
    + intros [before [after H]]. destruct before; [by exists after | discriminate].
  - rewrite orb_true_iff, prefix_spec, IH. split.
    + intros [[rest ->] | [before [after ->]]].
      * by exists "", rest.
      * by exists (String c before), after.
    + intros [[|d before] [after H]].
      * left. by exists after.
      * right. injection H as -> ->. by exists before, after.
Qed.

Lemma upper_run_spec (s u r : string) :
  upper_run s = (u, r) →
  s = u +:+ r ∧ all_upper u = true ∧
  match r with EmptyString => True | String c _ => is_upper c = false end.
Proof.
  revert u r. induction s as [|c s IH]; intros u r; simpl.
  - by intros [= <- <-].
  - destruct (is_upper c) eqn:Hc.
    + destruct (upper_run s) as [u' r'] eqn:Hrun. intros [= <- <-].
      destruct (IH u' r' eq_refl) as (-> & Hup & Hr). simpl. by rewrite Hc.
    + intros [= <- <-]. by rewrite Hc.
Qed.

Lemma upper_run_app (u r : string) :
  all_upper u = true →
  match r with EmptyString => True | String c _ => is_upper c = false end →
  upper_run (u +:+ r) = (u, r).
Proof.
  intros Hu Hr. induction u as [|c u IH]; simpl in *.
  - destruct r as [|d r]; simpl; [done | by rewrite Hr].
  - apply andb_true_iff in Hu as [-> Hu]. by rewrite (IH Hu).
Qed.

Lemma all_upper_no_marker (u : string) :
  all_upper u = true → str_contains "[]" u = false.
Proof.
  induction u as [|c u IH]; cbn [str_contains all_upper]; [done|].
  intros [Hc Hu]%andb_true_iff. rewrite (IH Hu), orb_false_r.
  destruct (String.prefix "[]" (String c u)) eqn:Hp; [|done].
  apply prefix_spec in Hp as [rest [= -> _]]. discriminate Hc.
Qed.

Lemma all_upper_marker_suffix (u : string) :
  all_upper u = true →
  str_contains "[]" (u +:+ "") = false ∧ str_contains "[]" (u +:+ "[]") = true.
Proof.
  intros Hu. split.
  - rewrite append_empty_r. by apply all_upper_no_marker.
  - apply str_contains_spec. by exists u, "".
Qed.

(** The derived classification of a declaration: the type token that
    [get_column_types] keeps has the marker exactly when the marker comes
    right after the leading capitals of the declaration. *)
Lemma regex_match_is_array (decl group1 : string) :
  regex_match decl = Some group1 →
  (_column_is_array group1 = true ↔ array_marker_follows_type decl).
Proof.
  unfold regex_match, _column_is_array.
  destruct (upper_run decl) as [u r] eqn:Hrun.
  destruct (upper_run_spec _ _ _ Hrun) as (-> & Hu & Hr).
  destruct u as [|c u]; [done|]. intros [= <-].
  destruct (all_upper_marker_suffix _ Hu) as [Hno Hyes].
  destruct (String.prefix "[]" r) eqn:Hp.
  - change (String c (u +:+ "[]")) with (String c u +:+ "[]").
    rewrite Hyes. split; [intros _ | done].
    apply prefix_spec in Hp as [after ->]. by exists (String c u), after.
  - change (String c (u +:+ "")) with (String c u +:+ "").
    rewrite Hno. split; [done|]. intros (token & after & Heq & Hne & Htok).
    assert (Hrun' : upper_run (token +:+ "[]" +:+ after) = (token, "[]" +:+ after))
      by (by apply upper_run_app).
    rewrite <- Heq, Hrun in Hrun'. injection Hrun' as _ Hr'.
    assert (String.prefix "[]" r = true) as Hp'
      by (apply prefix_spec; exists after; exact Hr').
    congruence.
Qed.

Lemma regex_match_is_Some (decl : string) :
  is_Some (regex_match decl) ↔
  ∃ c rest, decl = String c rest ∧ is_upper c = true.
Proof.
  unfold regex_match. destruct decl as [|c rest]; simpl.
  - split; [intros [? [=]] | intros (? & ? & [=] & _)].
  - destruct (is_upper c) eqn:Hc.
    + destruct (upper_run rest) as [u r]. split; [eauto | by eexists].
    + split; [intros [? [=]] | intros (? & ? & [= <- <-] & ?); congruence].
Qed.

Lemma length_append (a b : string) :
  String.length (a +:+ b) = (String.length a + String.length b)%nat.
Proof. induction a as [|x a IH]; simpl; [done | by rewrite IH]. Qed.

Lemma upper_run_prefix (u rest : string) :
  all_upper u = true →
  (upper_run (u +:+ rest)).1 = u +:+ (upper_run rest).1.
Proof.
  intros Hu. induction u as [|c u IH]; simpl in *; [done|].
  apply andb_true_iff in Hu as [-> Hu]. specialize (IH Hu).
  destruct (upper_run (u +:+ rest)) as [u1 r1].
  simpl in *. by rewrite IH.
Qed.

(** [regex_match] gives the longest prefix of the declaration that the
    pattern matches, which is what the greedy quantifiers select. *)
Lemma regex_match_longest (decl group1 : string) :
  regex_match decl = Some group1 →
  type_token group1 ∧
  String.prefix group1 decl = true ∧
  ∀ token, type_token token → String.prefix token decl = true →
    (String.length token ≤ String.length group1)%nat.
Proof.
  unfold regex_match. destruct (upper_run decl) as [u r] eqn:Hrun.
  destruct (upper_run_spec _ _ _ Hrun) as (Hdecl & Hu & Hr).
  destruct u as [|c u]; [done|]. intros [= <-].
  change (String c (u +:+ ?x)) with (String c u +:+ x).
  split; [|split].
  - destruct (String.prefix "[]" r); [by constructor|].
    rewrite append_empty_r. by constructor.
  - apply prefix_spec. destruct (String.prefix "[]" r) eqn:Hp.
    + apply prefix_spec in Hp as [rest ->]. exists rest.
      by rewrite Hdecl, append_assoc.
    + exists r. by rewrite append_empty_r.
  - intros token Htoken [rest Hrest]%prefix_spec. rewrite length_append.
    destruct Htoken as [u' Hne Hu' | u' Hne Hu'].
    + pose proof (upper_run_prefix u' rest Hu') as Hlong.
      rewrite <- Hrest, Hrun in Hlong. simpl in Hlong.
      rewrite Hlong, length_append. lia.
    + rewrite append_assoc in Hrest.
      pose proof (upper_run_app u' ("[]" +:+ rest) Hu' eq_refl) as Hrun'.
      rewrite <- Hrest, Hrun in Hrun'. injection Hrun' as Hu_eq Hr_eq.
      assert (String.prefix "[]" r = true) as ->
        by (apply prefix_spec; exists rest; exact Hr_eq).
      rewrite <- Hu_eq, !length_append. lia.
Qed.

Lemma regex_match_None (decl token : string) :
  regex_match decl = None → type_token token → String.prefix token decl = false.
Proof.
  intros Hnone Htoken. destruct (String.prefix token decl) eqn:Hp; [|done].
  apply prefix_spec in Hp as [rest ->].
  assert (∃ c rest', token +:+ rest = String c rest' ∧ is_upper c = true)
    as Hfirst.
  { destruct Htoken as [[|c u] Hne Hu | [|c u] Hne Hu]; try done;
      apply andb_true_iff in Hu as [Hc _]; by eexists c, _. }
  apply regex_match_is_Some in Hfirst as [? Hsome]. congruence.
Qed.

(** ** The effect-free part of the [res] monad *)

Lemma res_map_Ok {A B} (f : A → res B) (l : list A) (ys : list B) :
  res_map f l = Ok ys → Forall2 (λ x y, f x = Ok y) l ys.
Proof.
  revert ys. induction l as [|x l IH]; intros ys; simpl.
  - intros [= <-]. constructor.
  - destruct (f x) as [y|e] eqn:Hfx; simpl; [|done].
    destruct (res_map f l) as [ys'|e]; simpl; [|done].
    intros [= <-]. constructor; auto.
Qed.

Lemma res_map_total {A B} (f : A → res B) (l : list A) :
  Forall (λ x, ∃ y, f x = Ok y) l → ∃ ys, res_map f l = Ok ys.
Proof.
  induction 1 as [|x l [y Hy] _ [ys IH]]; simpl; [by eexists|].
  rewrite Hy, IH. by eexists.
Qed.

(** ** Initialisation *)

Lemma dom_dict_acc {V} (pairs : list (string * V)) (d : gmap string V) (k : string) :
  k ∈ dom (fold_left (λ d kv, <[kv.1 := kv.2]> d) pairs d) ↔
  k ∈ dom d ∨ k ∈ pairs.*1.
Proof.
  revert d. induction pairs as [|[k' v] pairs IH]; intros d; simpl.
  - rewrite elem_of_nil. tauto.
  - rewrite IH, dom_insert, elem_of_union, elem_of_singleton, elem_of_cons.
    simpl. tauto.
Qed.

Lemma elem_of_dom_dict {V} (pairs : list (string * V)) (k : string) :
  k ∈ dom (dict pairs) ↔ k ∈ pairs.*1.
Proof.
  unfold dict. rewrite dom_dict_acc, dom_empty, elem_of_empty. tauto.
Qed.

Lemma separate_fields_acc (cd : gmap string string) (fields acc1 acc2 : list (string * string)) :
  fold_left (λ acc field,
    if bool_decide (field.2 ∈ dom cd)
    then (acc.1, acc.2 ++ [field])
    else (acc.1 ++ [field], acc.2)) fields (acc1, acc2) =
  (acc1 ++ filter (λ field, field.2 ∉ dom cd) fields,
   acc2 ++ filter (λ field, field.2 ∈ dom cd) fields).
Proof.
  revert acc1 acc2. induction fields as [|field fields IH]; intros acc1 acc2; simpl.
  - by rewrite !app_nil_r.
  - rewrite !filter_cons.
    case_bool_decide as Hin; simpl; rewrite IH; repeat case_decide; try done;
      by rewrite <- app_assoc.
Qed.

Lemma separate_fields_filter (cd : gmap string string) (fields : list (string * string)) :
  separate_fields cd fields =
  (filter (λ field, field.2 ∉ dom cd) fields,
   filter (λ field, field.2 ∈ dom cd) fields).
Proof. unfold separate_fields. by rewrite separate_fields_acc. Qed.


(** ** Column types *)

Lemma get_column_types_Ok (c : KeemuClass) (types : list (string * string)) :
  get_column_types c = Ok types →
  Forall2 (λ col ty, ty.1 = col.1 ∧ regex_match col.2 = Some ty.2) (columns c) types.
Proof.
  intros H%res_map_Ok. eapply Forall2_impl; [exact H|].
  intros col ty. simpl. destruct (regex_match col.2); [|done].
  by intros [= <-].
Qed.

Lemma ensure_indexes_acc (tbl : string) (types : list (string * string))
    (executed : list string) :
  fold_left (λ executed col,
      if bool_decide (col.1 ∈ ["irn"; "properties"])
      then executed
      else executed ++
           [create_index_query tbl
              (if _column_is_array col.2 then "GIN" else "BTREE") col.1])
    types executed =
  executed ++
  ((λ col, create_index_query tbl
             (if _column_is_array col.2 then "GIN" else "BTREE") col.1) <$>
   filter (λ col, col.1 ∉ ["irn"; "properties"]) types).
Proof.
  revert executed. induction types as [|col types IH]; intros executed; simpl.
  - by rewrite app_nil_r.
  - rewrite filter_cons, IH. case_bool_decide; case_decide; try done.
    by rewrite fmap_cons, <- app_assoc.
Qed.

Lemma array_fields_spec (c : KeemuClass) (types : list (string * string))
    (alias : string) :
  get_column_types c = Ok types →
  alias ∈ (filter (λ col, _column_is_array col.2 = true) types).*1 ↔
  ∃ decl, (alias, decl) ∈ columns c ∧ array_marker_follows_type decl.
Proof.
  intros Htypes%get_column_types_Ok. rewrite list_elem_of_fmap. split.
  - intros ([name ty] & -> & [Harr Hin]%list_elem_of_filter). simpl in *.
    apply list_elem_of_lookup in Hin as [i Hi].
    destruct (Forall2_lookup_r _ _ _ _ _ Htypes Hi) as ([name' decl] & Hcol & Hname & Hre).
    simpl in *. subst name'. exists decl. split; [by eapply list_elem_of_lookup_2|].
    by apply (regex_match_is_array _ _ Hre).
  - intros (decl & Hin & Harr). apply list_elem_of_lookup in Hin as [i Hi].
    destruct (Forall2_lookup_l _ _ _ _ _ Htypes Hi) as ([name ty] & Hty & Hname & Hre).
    simpl in *. subst name. exists (alias, ty). split; [done|].
    apply list_elem_of_filter. split; [|by eapply list_elem_of_lookup_2].
    by apply (regex_match_is_array _ _ Hre).
Qed.

Lemma create_index_query_inj (tbl idx1 idx2 col1 col2 : string) :
  idx1 ∈ ["GIN"; "BTREE"] → idx2 ∈ ["GIN"; "BTREE"] →
  create_index_query tbl idx1 col1 = create_index_query tbl idx2 col2 →
  col1 = col2.
Proof.
  unfold create_index_query. intros H1 H2 Heq.
  apply append_cancel_l, append_cancel_l, append_cancel_l in Heq.
  assert (idx1 = "GIN" ∨ idx1 = "BTREE") as [-> | ->]
    by (rewrite !elem_of_cons, elem_of_nil in H1; tauto).
  all: assert (idx2 = "GIN" ∨ idx2 = "BTREE") as [-> | ->]
    by (rewrite !elem_of_cons, elem_of_nil in H2; tauto).
  all: try discriminate Heq.
  all: apply append_cancel_l, append_cancel_l in Heq.
  all: by apply append_char_cancel_r in Heq.
Qed.

Section InitFacts.
Variable task_id_str : string → gmap string string → string.

Lemma init_Ok (c : KeemuClass) (d : Z) (l : option Z) (self : KeemuBaseMixin) :
  __init__ task_id_str c d l = Ok self →
  ∃ types,
    get_column_types c = Ok types ∧
    cls self = c ∧
    date self = d ∧
    limit self = l ∧
    _property_fields self = filter (λ field, field.2 ∉ column_names c) (fields c) ∧
    _metadata_fields self = filter (λ field, field.2 ∈ column_names c) (fields c) ∧
    _array_fields self = (filter (λ col, _column_is_array col.2 = true) types).*1 ∧
    task_id self =
      task_id_str (table c) (to_str_params true (param_kwargs c d l)) ∧
    record_count self = 0 ∧ insert_count self = 0.
Proof.
  unfold __init__. destruct (get_column_types c) as [types|e]; simpl; [|done].
  intros [= <-]. exists types. simpl. rewrite separate_fields_filter. simpl.
  split_and!; try done.
  - apply list_filter_iff. intros field. by rewrite elem_of_dom_dict.
  - apply list_filter_iff. intros field. by rewrite elem_of_dom_dict.
Qed.

Lemma init_array_fields (c : KeemuClass) (date : Z) (limit : option Z)
    (self : KeemuBaseMixin) (name : string) :
  __init__ task_id_str c date limit = Ok self →
  name ∈ _array_fields self ↔
  ∃ decl, (name, decl) ∈ columns c ∧ array_marker_follows_type decl.
Proof.
  intros (types & Htypes & _ & _ & _ & _ & _ & Harr & _)%init_Ok.
  rewrite Harr. by apply array_fields_spec.
Qed.
End InitFacts.

(** ** The loop of [records] *)

Lemma with_counts_id (self : KeemuBaseMixin) :
  with_counts (record_count self) (insert_count self) self = self.
Proof. by destruct self. Qed.

Lemma outputs_app (t1 t2 : list event) : outputs (t1 ++ t2) = outputs t1 ++ outputs t2.
Proof. apply filter_app. Qed.

Lemma outputs_debug_line (self : KeemuBaseMixin) : outputs (debug_line self) = [].
Proof.
  unfold debug_line. destruct (limit_reached self); [done|].
  by destruct (record_count self mod 1000 =? 0).
Qed.

Lemma outputs_path (self : KeemuBaseMixin) (r : record) (ev : event)
    (trace : list event) :
  takes_path self r ev → outputs (ev :: trace) = ev :: outputs trace.
Proof. by intros [(_ & row & _ & ->) | (_ & ->)]. Qed.

Lemma records_body_unfold (r : record) (self : KeemuBaseMixin) :
  records_body r self =
  let counted := set_record_count (record_count self + 1) self in
  match is_admitted self r with
  | Raise e => ([], counted, Raise e)
  | Ok false =>
      (DeleteRecord r :: debug_line counted, counted, Ok (limit_reached counted))
  | Ok true =>
      let inserted := set_insert_count (insert_count self + 1) counted in
      match record_to_dict self r with
      | Raise e => ([], inserted, Raise e)
      | Ok row =>
          (Yield row :: debug_line inserted, inserted, Ok (limit_reached inserted))
      end
  end.
Proof.
  unfold records_body, gen_bind, gen_update, gen_self, gen_lift, delete_record,
    gen_emit, gen_ret, debug_line. simpl.
  change (is_admitted (set_record_count (record_count self + 1) self) r)
    with (is_admitted self r).
  destruct (is_admitted self r) as [[|]|e]; simpl; [| |done].
  - change (record_to_dict
              (set_insert_count (insert_count self + 1)
                 (set_record_count (record_count self + 1) self)) r)
      with (record_to_dict self r).
    destruct (record_to_dict self r) as [row|e]; simpl; [|done].
    destruct (limit_reached _); simpl; [done|].
    by destruct (_ =? 0).
  - destruct (limit_reached _); simpl; [done|].
    by destruct (_ =? 0).
Qed.

(** A round of the loop on a record that takes a path: one output, the
    count of seen records goes up by one. *)
Lemma records_body_path (r : record) (self : KeemuBaseMixin) (ev : event) :
  takes_path self r ev →
  ∃ inserted,
    let self' := with_counts (record_count self + 1) inserted self in
    records_body r self = (ev :: debug_line self', self', Ok (limit_reached self')).
Proof.
  intros [(Hadm & row & Hrow & ->) | (Hadm & ->)];
    rewrite records_body_unfold, Hadm; simpl.
  - rewrite Hrow. by exists (insert_count self + 1).
  - exists (insert_count self). unfold with_counts.
    replace (set_insert_count (insert_count self) (set_record_count (record_count self + 1) self))
      with (set_record_count (record_count self + 1) self) by by destruct self.
    done.
Qed.

Lemma records_body_result (r : record) (self self' : KeemuBaseMixin)
    (trace : list event) (result : res bool) :
  records_body r self = (trace, self', result) →
  (∃ inserted, self' = with_counts (record_count self + 1) inserted self) ∧
  match result with
  | Ok stop =>
      stop = limit_reached self' ∧
      ∃ ev, takes_path self r ev ∧ trace = ev :: debug_line self'
  | Raise e =>
      trace = [] ∧
      (is_admitted self r = Raise e ∨
       is_admitted self r = Ok true ∧ record_to_dict self r = Raise e)
  end.
Proof.
  rewrite records_body_unfold. simpl.
  destruct (is_admitted self r) as [[|]|e] eqn:Hadm.
  - destruct (record_to_dict self r) as [row|e] eqn:Hrow; intros [= <- <- <-].
    + split; [by eexists|]. split; [done|]. exists (Yield row). split; [|done].
      left. eauto.
    + split; [by eexists|]. split; [done|]. by right.
  - intros [= <- <- <-]. split.
    + exists (insert_count self). by destruct self.
    + split; [done|]. exists (DeleteRecord r). split; [by right | done].
  - intros [= <- <- <-]. split.
    + exists (insert_count self). by destruct self.
    + split; [done|]. by left.
Qed.

Lemma gen_for_cons {A} (body : A → Gen bool) (x : A) (xs : list A)
    (self : KeemuBaseMixin) :
  gen_for body (x :: xs) self =
  match body x self with
  | (trace, self', Ok false) =>
      match gen_for body xs self' with
      | (trace', self'', result) => (trace ++ trace', self'', result)
      end
  | (trace, self', Ok true) => (trace, self', Ok true)
  | (trace, self', Raise e) => (trace, self', Raise e)
  end.
Proof.
  simpl. unfold gen_bind. destruct (body x self) as [[trace self'] [[|]|e]]; [|done..].
  unfold gen_ret. by rewrite app_nil_r.
Qed.

Lemma gen_for_app {A} (body : A → Gen bool) (l1 l2 : list A)
    (self : KeemuBaseMixin) :
  gen_for body (l1 ++ l2) self =
  match gen_for body l1 self with
  | (trace, self', Ok false) =>
      match gen_for body l2 self' with
      | (trace', self'', result) => (trace ++ trace', self'', result)
      end
  | (trace, self', Ok true) => (trace, self', Ok true)
  | (trace, self', Raise e) => (trace, self', Raise e)
  end.
Proof.
  revert self. induction l1 as [|x l1 IH]; intros self.
  - simpl. unfold gen_ret. by destruct (gen_for body l2 self) as [[? ?] ?].
  - rewrite <- app_comm_cons, !gen_for_cons.
    destruct (body x self) as [[trace self'] [[|]|e]]; [done| |done].
    rewrite IH. destruct (gen_for body l1 self') as [[trace1 self1] [[|]|e]]; [done| |done].
    destruct (gen_for body l2 self1) as [[trace2 self2] result].
    by rewrite app_assoc.
Qed.

(** The loop only changes the two counters of the instance. *)
Lemma gen_for_records_counts (stream : list record) (self self' : KeemuBaseMixin)
    (trace : list event) (result : res bool) :
  gen_for records_body stream self = (trace, self', result) →
  ∃ seen inserted, self' = with_counts seen inserted self.
Proof.
  revert self self' trace result.
  induction stream as [|r stream IH]; intros self self' trace result.
  - intros [= <- <- <-]. eexists _, _. symmetry. apply with_counts_id.
  - rewrite gen_for_cons.
    destruct (records_body r self) as [[trace1 self1] result1] eqn:Hbody.
    destruct (records_body_result _ _ _ _ _ Hbody) as [[inserted ->] _].
    destruct result1 as [[|]|e].
    + intros [= <- <- <-]. by eexists _, _.
    + destruct (gen_for records_body stream _) as [[trace2 self2] result2] eqn:Hrest.
      intros [= <- <- <-]. destruct (IH _ _ _ _ Hrest) as (seen & inserted' & ->).
      by exists seen, inserted'.
    + intros [= <- <- <-]. by eexists _, _.
Qed.

(** Each output of the loop belongs to the record at the same place of
    the stream, and is the one path this record takes. *)
Lemma gen_for_records_paths (stream : list record) (self self' : KeemuBaseMixin)
    (trace : list event) (result : res bool) :
  gen_for records_body stream self = (trace, self', result) →
  ∃ k : nat, (k ≤ List.length stream)%nat ∧
    Forall2 (takes_path self) (take k stream) (outputs trace) ∧
    (result = Ok false → k = List.length stream).
Proof.
  revert self self' trace result.
  induction stream as [|r stream IH]; intros self self' trace result.
  - intros [= <- <- <-]. exists 0%nat. split; [done|]. split; [constructor | done].
  - rewrite gen_for_cons.
    destruct (records_body r self) as [[trace1 self1] result1] eqn:Hbody.
    destruct (records_body_result _ _ _ _ _ Hbody) as [[inserted ->] Hres].
    destruct result1 as [[|]|e].
    + destruct Hres as (_ & ev & Hpath & ->). intros [= <- <- <-].
      exists 1%nat. split; [simpl; lia|]. split; [|done].
      rewrite (outputs_path _ _ _ _ Hpath), outputs_debug_line.
      simpl. rewrite take_0. constructor; [done | constructor].
    + destruct Hres as (_ & ev & Hpath & ->).
      destruct (gen_for records_body stream _) as [[trace2 self2] result2] eqn:Hrest.
      intros [= <- <- <-]. destruct (IH _ _ _ _ Hrest) as (k & Hk & Hall & Hdone).
      exists (S k). split; [simpl; lia|]. split; [|intros ->; simpl; auto].
      rewrite <- ?app_comm_cons, (outputs_path _ _ _ _ Hpath).
      rewrite outputs_app, outputs_debug_line.
      simpl. constructor; [done | exact Hall].
    + destruct Hres as [-> _]. intros [= <- <- <-].
      exists 0%nat. split; [lia|]. split; [constructor | done].
Qed.

Lemma records_unfold (stream : list record) (self : KeemuBaseMixin) :
  records stream self =
  match gen_for records_body stream self with
  | (trace, self', Ok _) =>
      (trace ++ [LogInfo (insert_count self') (table (cls self'))], self', Ok tt)
  | (trace, self', Raise e) => (trace, self', Raise e)
  end.
Proof.
  unfold records, gen_bind.
  by destruct (gen_for records_body stream self) as [[trace self'] [stop|e]].
Qed.

Lemma limit_reached_with_counts (self : KeemuBaseMixin) (seen inserted : Z) :
  limit_reached (with_counts seen inserted self) =
  match limit self with
  | None => false
  | Some n => negb (n =? 0) && (n <=? seen)
  end.
Proof. done. Qed.

(** Without a limit the loop goes through the whole stream. *)
Lemma loop_uncapped (stream : list record) (self : KeemuBaseMixin) :
  limit self = None ∨ limit self = Some 0 →
  Forall (processable self) stream →
  ∃ trace self',
    gen_for records_body stream self = (trace, self', Ok false) ∧
    Forall2 (takes_path self) stream (outputs trace) ∧
    record_count self' = record_count self + Z.of_nat (List.length stream).
Proof.
  intros Hlimit. revert self Hlimit.
  induction stream as [|r stream IH]; intros self Hlimit Hall.
  - exists [], self. split; [done|]. split; [constructor | simpl; lia].
  - apply Forall_cons in Hall as [[ev Hpath] Hall].
    destruct (records_body_path _ _ _ Hpath) as [inserted Hbody]. simpl in Hbody.
    rewrite gen_for_cons, Hbody, limit_reached_with_counts.
    assert (match limit self with
            | Some n => negb (n =? 0) && (n <=? record_count self + 1)
            | None => false
            end = false) as -> by (by destruct Hlimit as [-> | ->]).
    destruct (IH (with_counts (record_count self + 1) inserted self) Hlimit Hall)
      as (trace & self' & -> & Hpaths & Hcount).
    eexists _, _. split; [done|]. split.
    + rewrite <- app_comm_cons, (outputs_path _ _ _ _ Hpath).
      rewrite outputs_app, outputs_debug_line. by constructor.
    + rewrite Hcount. simpl. lia.
Qed.

(** With a limit [n] the loop goes through the records up to the one that
    brings the count of seen records to [n]. *)
Lemma loop_capped (n : Z) (stream : list record) (self : KeemuBaseMixin) :
  limit self = Some n → 0 < n → record_count self < n →
  Forall (processable self) (take (Z.to_nat (n - record_count self)) stream) →
  ∃ trace self' stop,
    gen_for records_body stream self = (trace, self', Ok stop) ∧
    Forall2 (takes_path self) (take (Z.to_nat (n - record_count self)) stream)
      (outputs trace) ∧
    record_count self' = Z.min n (record_count self + Z.of_nat (List.length stream)).
Proof.
  intros Hlimit Hn. revert self Hlimit.
  induction stream as [|r stream IH]; intros self Hlimit Hlt Hall.
  - exists [], self, false. split; [done|]. rewrite take_nil.
    split; [constructor | simpl; lia].
  - destruct (Z.to_nat (n - record_count self)) as [|m] eqn:Hm; [lia|].
    simpl in Hall. apply Forall_cons in Hall as [[ev Hpath] Hall].
    destruct (records_body_path _ _ _ Hpath) as [inserted Hbody]. simpl in Hbody.
    rewrite gen_for_cons, Hbody, limit_reached_with_counts, Hlimit.
    destruct (decide (n ≤ record_count self + 1)) as [Hle|Hgt].
    + assert (negb (n =? 0) && (n <=? record_count self + 1) = true) as ->.
      { apply andb_true_iff. split; [apply negb_true_iff|]; lia. }
      eexists _, _, _. split; [done|]. split.
      * rewrite (outputs_path _ _ _ _ Hpath), outputs_debug_line.
        assert (m = 0%nat) as -> by lia. simpl. rewrite take_0.
        constructor; [done | constructor].
      * simpl. lia.
    + assert (negb (n =? 0) && (n <=? record_count self + 1) = false) as ->.
      { apply andb_false_iff. right. lia. }
      destruct (IH (with_counts (record_count self + 1) inserted self) Hlimit)
        as (trace & self' & stop & -> & Hpaths & Hcount).
      { simpl. lia. }
      { simpl. replace (Z.to_nat (n - (record_count self + 1))) with m by lia.
        exact Hall. }
      eexists _, _, _. split; [done|]. split.
      * rewrite <- app_comm_cons, (outputs_path _ _ _ _ Hpath).
        rewrite outputs_app, outputs_debug_line. simpl. constructor; [done|].
        simpl in Hpaths.
        replace (Z.to_nat (n - (record_count self + 1))) with m in Hpaths by lia.
        exact Hpaths.
      * rewrite Hcount. simpl. lia.
Qed.

(** With a limit [n] the count of seen records never goes beyond [n]. *)
Lemma loop_bound (n : Z) (stream : list record) (self self' : KeemuBaseMixin)
    (trace : list event) (result : res bool) :
  limit self = Some n → 0 < n → record_count self < n →
  gen_for records_body stream self = (trace, self', result) →
  record_count self' ≤ n.
Proof.
  intros Hlimit Hn. revert self self' trace result Hlimit.
  induction stream as [|r stream IH]; intros self self' trace result Hlimit Hlt.
  - intros [= <- <- <-]. lia.
  - rewrite gen_for_cons.
    destruct (records_body r self) as [[trace1 self1] result1] eqn:Hbody.
    destruct (records_body_result _ _ _ _ _ Hbody) as [[inserted ->] Hres].
    destruct result1 as [[|]|e].
    + intros [= <- <- <-]. simpl. lia.
    + destruct Hres as [Hstop _]. rewrite limit_reached_with_counts, Hlimit in Hstop.
      symmetry in Hstop. apply andb_false_iff in Hstop as [Hz|Hgt].
      { apply negb_false_iff in Hz. lia. }
      destruct (gen_for records_body stream _) as [[trace2 self2] result2] eqn:Hrest.
      intros [= <- <- <-]. apply (IH (with_counts (record_count self + 1) inserted self) _ _ _ Hlimit)
        in Hrest; [done|]. simpl. lia.
    + intros [= <- <- <-]. simpl. lia.
Qed.

(** ** The transformer *)

Lemma properties_dom_acc (r : record) (fields : list (string * string))
    (d : gmap string value) (alias : string) :
  is_Some (fold_left (λ d field,
      if truthy (getattr_default r field.1 PyNone)
      then <[field.2 := getattr_default r field.1 PyNone]> d
      else d) fields d !! alias) ↔
  is_Some (d !! alias) ∨
  ∃ ke_field, (ke_field, alias) ∈ fields ∧
    truthy (getattr_default r ke_field PyNone) = true.
Proof.
  revert d. induction fields as [|[ke k] fields IH]; intros d; simpl.
  - split; [by left | intros [H | (ke & Hin & _)]; [done | by apply elem_of_nil in Hin]].
  - rewrite IH. destruct (truthy (getattr_default r ke PyNone)) eqn:Htruthy.
    + rewrite lookup_insert_is_Some. split.
      * intros [[-> | [_ H]] | (ke' & Hin & H)].
        -- right. exists ke. split; [left | done].
        -- by left.
        -- right. exists ke'. split; [by right | done].
      * intros [H | (ke' & Hin & H)].
        -- destruct (decide (k = alias)) as [->|Hne]; left; [by left | by right].
        -- apply elem_of_cons in Hin as [[= -> ->] | Hin].
           ++ left. by left.
           ++ right. by exists ke'.
    + split.
      * intros [H | (ke' & Hin & H)]; [by left|].
        right. exists ke'. split; [by right | done].
      * intros [H | (ke' & Hin & H)]; [by left|].
        apply elem_of_cons in Hin as [[= -> ->] | Hin]; [congruence|].
        right. by exists ke'.
Qed.

Lemma properties_value_acc (r : record) (fields : list (string * string))
    (d : gmap string value) (alias : string) (v : value) :
  fold_left (λ d field,
      if truthy (getattr_default r field.1 PyNone)
      then <[field.2 := getattr_default r field.1 PyNone]> d
      else d) fields d !! alias = Some v →
  d !! alias = Some v ∨
  ∃ ke_field, (ke_field, alias) ∈ fields ∧
    v = getattr_default r ke_field PyNone ∧ truthy v = true.
Proof.
  revert d. induction fields as [|[ke k] fields IH]; intros d; simpl; [by left|].
  intros [Hd | (ke' & Hin & Hv)]%IH.
  - destruct (truthy (getattr_default r ke PyNone)) eqn:Htruthy.
    + apply lookup_insert_Some in Hd as [[-> <-] | [_ Hd]]; [|by left].
      right. exists ke. split; [left | done].
    + by left.
  - right. exists ke'. split; [by right | done].
Qed.

Lemma get_properties_dom (self : KeemuBaseMixin) (r : record) (alias : string) :
  is_Some (get_properties self r !! alias) ↔
  ∃ ke_field, (ke_field, alias) ∈ _property_fields self ∧
    truthy (getattr_default r ke_field PyNone) = true.
Proof.
  unfold get_properties. rewrite properties_dom_acc, lookup_empty.
  split; [intros [[? [=]] | H]; done | by right].
Qed.

Lemma get_properties_value (self : KeemuBaseMixin) (r : record) (alias : string)
    (v : value) :
  get_properties self r !! alias = Some v →
  ∃ ke_field, (ke_field, alias) ∈ _property_fields self ∧
    v = getattr_default r ke_field PyNone ∧ truthy v = true.
Proof.
  unfold get_properties. intros [H | H]%properties_value_acc; [|done].
  by rewrite lookup_empty in H.
Qed.

Lemma set_metadata_Ok (self : KeemuBaseMixin) (r : record)
    (record_dict : gmap string value) (field : string * string) :
  set_metadata self r record_dict field =
  Ok (<[field.2 := stored_value self field.2 (getattr_default r field.1 PyNone)]>
        record_dict).
Proof.
  unfold set_metadata, stored_value, getitem. rewrite lookup_insert_eq. simpl.
  destruct (truthy _); simpl; [|done].
  destruct (bool_decide _); simpl; [|done].
  destruct (type_is_not_list _); simpl; [|done].
  by rewrite insert_insert_eq.
Qed.

Lemma metadata_loop_Ok (self : KeemuBaseMixin) (r : record)
    (fields : list (string * string)) (record_dict : gmap string value) :
  res_fold (set_metadata self r) fields record_dict =
  Ok (fold_left (λ d field,
        <[field.2 := stored_value self field.2 (getattr_default r field.1 PyNone)]> d)
      fields record_dict).
Proof.
  revert record_dict. induction fields as [|field fields IH]; intros d; simpl; [done|].
  rewrite set_metadata_Ok. simpl. apply IH.
Qed.

Lemma record_to_dict_Ok (self : KeemuBaseMixin) (r : record) (irn : value) :
  r !! "irn" = Some irn →
  record_to_dict self r =
  Ok (fold_left (λ d field,
        <[field.2 := stored_value self field.2 (getattr_default r field.1 PyNone)]> d)
      (_metadata_fields self)
      (<["import_date" := PyInt (date self)]>
         (<["properties" := PyDict (get_properties self r)]>
            (<["irn" := irn]> ∅)))).
Proof.
  intros Hirn. unfold record_to_dict, getattr. rewrite Hirn. simpl.
  apply metadata_loop_Ok.
Qed.

Lemma record_to_dict_no_irn (self : KeemuBaseMixin) (r : record) :
  r !! "irn" = None → record_to_dict self r = Raise (AttributeError "irn").
Proof. intros Hirn. unfold record_to_dict, getattr. by rewrite Hirn. Qed.

Lemma fold_insert_other {V} (f : string * string → V) (fields : list (string * string))
    (d : gmap string V) (key : string) :
  key ∉ fields.*2 →
  fold_left (λ d field, <[field.2 := f field]> d) fields d !! key = d !! key.
Proof.
  revert d. induction fields as [|field fields IH]; intros d; simpl; [done|].
  intros [Hne Hnot]%not_elem_of_cons. rewrite IH by done. by rewrite lookup_insert_ne.
Qed.

Lemma fold_insert_last {V} (f : string * string → V)
    (before after : list (string * string)) (field : string * string)
    (d : gmap string V) :
  field.2 ∉ after.*2 →
  fold_left (λ d field, <[field.2 := f field]> d) (before ++ field :: after) d
    !! field.2 = Some (f field).
Proof.
  intros Hnot. rewrite fold_left_app. simpl.
  rewrite fold_insert_other by done. apply lookup_insert_eq.
Qed.

(** ** Admission *)

Lemma lower_char_y (c : ascii) :
  lower_char c = "y"%char ↔ c = "y"%char ∨ c = "Y"%char.
Proof.
  split.
  - destruct c as [[] [] [] [] [] [] [] []]; vm_compute; intros [=]; auto.
  - by intros [-> | ->].
Qed.

Lemma lower_is_y (s : string) : lower s = "y" ↔ s = "y" ∨ s = "Y".
Proof.
  destruct s as [|c [|d s]]; simpl.
  - split; [done | by intros [|]].
  - split.
    + intros [= H]. apply lower_char_y in H as [-> | ->]; auto.
    + by intros [[= ->] | [= ->]].
  - split; [done | by intros [|]].
Qed.

Lemma check_filters_true (r : record) (field : string)
    (pairs : list (filter_operator * value)) :
  check_filters (getattr_default r field PyNone) pairs = Ok true ↔
  Forall (passes r field) pairs.
Proof.
  induction pairs as [|[op cmp] pairs IH]; simpl.
  - split; [constructor | done].
  - rewrite Forall_cons, <- IH. unfold passes. simpl.
    destruct (op _ cmp) as [v|e]; simpl.
    + destruct (truthy v) eqn:Hv; simpl.
      * split; [eauto | by intros [_ ?]].
      * split; [done | intros [(v' & [= <-] & ?) _]; congruence].
    + split; [done | by intros [(v' & ? & _) _]].
Qed.

Lemma check_filters_first_failure (r : record) (field : string)
    (earlier later : list (filter_operator * value))
    (pair : filter_operator * value) :
  Forall (passes r field) earlier → fails r field pair →
  check_filters (getattr_default r field PyNone) (earlier ++ pair :: later) = Ok false.
Proof.
  intros Hearlier (v & Hv & Hfalse).
  induction Hearlier as [|[op cmp] earlier (v' & Hv' & Htrue) _ IH]; simpl.
  - destruct pair as [op cmp]. simpl in Hv. rewrite Hv. simpl. by rewrite Hfalse.
  - simpl in Hv'. rewrite Hv'. simpl. by rewrite Htrue.
Qed.

Lemma apply_filter_items_true (r : record)
    (items : list (string * list (filter_operator * value))) :
  apply_filter_items r items = Ok true ↔ Forall (rule_passes r) items.
Proof.
  induction items as [|[field pairs] items IH]; simpl.
  - split; [constructor | done].
  - rewrite Forall_cons, <- IH. unfold rule_passes at 1. simpl.
    rewrite <- check_filters_true.
    destruct (check_filters _ pairs) as [[|]|e]; simpl; intuition congruence.
Qed.

Lemma apply_filter_items_first_failure (r : record)
    (before after : list (string * list (filter_operator * value)))
    (field : string) (earlier later : list (filter_operator * value))
    (pair : filter_operator * value) :
  Forall (rule_passes r) before →
  Forall (passes r field) earlier → fails r field pair →
  apply_filter_items r (before ++ (field, earlier ++ pair :: later) :: after) = Ok false.
Proof.
  intros Hbefore Hearlier Hfails.
  induction Hbefore as [|[field' pairs] before Hrule _ IH]; simpl.
  - by rewrite check_filters_first_failure.
  - apply check_filters_true in Hrule. simpl in Hrule. by rewrite Hrule.
Qed.

(** C6: the filter gate is evaluated only for a record that passed the
    publishability gate; it gives the operators [None] for an absent
    field, rejects at the first pair whose operator returns a false
    value, whatever comes after it, and admits exactly when every pair of
    every rule returns a true value. *)
Theorem filter_gate (self : KeemuBaseMixin) (r : record) :
  (_is_web_publishable r = Ok false → is_admitted self r = Ok false) ∧
  (∀ e, _is_web_publishable r = Raise e → is_admitted self r = Raise e) ∧
  (_is_web_publishable r = Ok true →
     is_admitted self r = _apply_filters self r ∧
     (∀ field, r !! field = None → getattr_default r field PyNone = PyNone) ∧
     (∀ before field earlier pair later after,
        filters (cls self) =
          before ++ (field, earlier ++ pair :: later) :: after →
        Forall (rule_passes r) before →
        Forall (passes r field) earlier →
        fails r field pair →
        is_admitted self r = Ok false) ∧
     (is_admitted self r = Ok true ↔
      Forall (rule_passes r) (filters (cls self)))).
Proof.
  unfold is_admitted. split; [by intros ->|]. split; [by intros e ->|].
  intros ->. simpl. split; [done|]. split; [|split].
  - intros field Hnone. unfold getattr_default. by rewrite Hnone.
  - intros before field earlier pair later after Hfilters Hbefore Hearlier Hfails.
    unfold _apply_filters. rewrite Hfilters.
    by apply apply_filter_items_first_failure.
  - apply apply_filter_items_true.
Qed.

Lemma filter_gate_witness :
  is_admitted (guarded_task None) unpublished = Ok false ∧
  is_admitted (guarded_task None) unflagged =
    Raise (AttributeError "AdmPublishWebNoPasswordFlag") ∧
  is_admitted (guarded_task None) draft = Ok false ∧
  is_admitted (catalogue_task None) specimen = Ok true.
Proof.
  split_and!.
  - apply (proj1 (filter_gate (guarded_task None) unpublished)). reflexivity.
  - apply (proj1 (proj2 (filter_gate (guarded_task None) unflagged))). reflexivity.
  - destruct (proj2 (proj2 (filter_gate (guarded_task None) draft)) eq_refl)
      as (_ & _ & Hfirst & _).
    apply (Hfirst [] "status" [] (equals, PyStr "verified") [(unusable, PyNone)]
             [("kind", [(unusable, PyNone)])]).
    + reflexivity.
    + constructor.
    + constructor.
    + exists (PyBool false). split; reflexivity.
  - destruct (proj2 (proj2 (filter_gate (catalogue_task None) specimen)) eq_refl)
      as (_ & _ & _ & Hall).
    apply Hall. repeat constructor. exists (PyBool true). split; reflexivity.
Defined.

(** C1: what [_is_web_publishable] does with the flag.  A string flag is
    accepted exactly when it is [y] or [Y]; a flag that is no string has
    no [lower] and raises; a record without the flag is not rejected: the
    attribute access raises, and so do the admission check and the run of
    [records] that meets the record, which hands nothing to
    [delete_record]. *)
Theorem publishable_flag (self : KeemuBaseMixin) (r : record) :
  (∀ s, r !! "AdmPublishWebNoPasswordFlag" = Some (PyStr s) →
        _is_web_publishable r = Ok (bool_decide (s = "y" ∨ s = "Y"))) ∧
  (∀ v, r !! "AdmPublishWebNoPasswordFlag" = Some v →
        (∀ s, v ≠ PyStr s) →
        _is_web_publishable r = Raise (AttributeError "lower")) ∧
  (r !! "AdmPublishWebNoPasswordFlag" = None →
     _is_web_publishable r = Raise (AttributeError "AdmPublishWebNoPasswordFlag") ∧
     is_admitted self r = Raise (AttributeError "AdmPublishWebNoPasswordFlag") ∧
     ∀ rest,
       records (r :: rest) self =
       ([], set_record_count (record_count self + 1) self,
        Raise (AttributeError "AdmPublishWebNoPasswordFlag"))).
Proof.
  split; [|split].
  - intros s Hflag. unfold _is_web_publishable, getattr. rewrite Hflag. simpl.
    f_equal. case_bool_decide as Hy.
    + apply lower_is_y in Hy. rewrite Hy. reflexivity.
    + apply String.eqb_neq. by rewrite lower_is_y.
  - intros v Hflag Hother. unfold _is_web_publishable, getattr. rewrite Hflag.
    simpl. destruct v; try done. by destruct (Hother s).
  - intros Hflag.
    assert (_is_web_publishable r = Raise (AttributeError "AdmPublishWebNoPasswordFlag"))
      as Hraise by (unfold _is_web_publishable, getattr; by rewrite Hflag).
    assert (is_admitted self r = Raise (AttributeError "AdmPublishWebNoPasswordFlag"))
      as Hadm by (unfold is_admitted; by rewrite Hraise).
    split; [done|]. split; [done|]. intros rest.
    by rewrite records_unfold, gen_for_cons, records_body_unfold, Hadm.
Qed.

Lemma publishable_flag_witness :
  _is_web_publishable specimen = Ok true ∧
  _is_web_publishable unpublished = Ok false ∧
  _is_web_publishable twice_flagged = Raise (AttributeError "lower") ∧
  _is_web_publishable unflagged =
    Raise (AttributeError "AdmPublishWebNoPasswordFlag") ∧
  records [unflagged; specimen] (catalogue_task None) =
    ([], set_record_count 1 (catalogue_task None),
     Raise (AttributeError "AdmPublishWebNoPasswordFlag")).
Proof.
  split_and!.
  - apply (proj1 (publishable_flag (catalogue_task None) specimen) "Y"). reflexivity.
  - apply (proj1 (publishable_flag (catalogue_task None) unpublished) "N"). reflexivity.
  - apply (proj1 (proj2 (publishable_flag (catalogue_task None) twice_flagged))
             (PyList [PyStr "Y"; PyStr "Y"])); [reflexivity | done].
  - apply (proj2 (proj2 (publishable_flag (catalogue_task None) unflagged))).
    reflexivity.
  - apply (proj2 (proj2 (publishable_flag (catalogue_task None) unflagged))).
    reflexivity.
Defined.

Lemma triple_eta {A B C} (p : A * B * C) : p = (p.1.1, p.1.2, p.2).
Proof. by destruct p as [[a b] c]. Qed.

Lemma outputs_log_info (trace : list event) (inserted : Z) (name : string) :
  outputs (trace ++ [LogInfo inserted name]) = outputs trace.
Proof. rewrite outputs_app. apply app_nil_r. Qed.

(** A record on which the admission check or the transformation raises
    takes none of the two paths. *)
Lemma raising_not_processable (self : KeemuBaseMixin) (r : record) (e : exn) :
  is_admitted self r = Raise e ∨
  is_admitted self r = Ok true ∧ record_to_dict self r = Raise e →
  ¬ processable self r.
Proof.
  intros Hraise [ev [(Hadm & row & Hrow & _) | (Hadm & _)]];
    destruct Hraise as [Hadm' | [Hadm' Hrow']]; congruence.
Qed.

(** Where the loop of [records] ends: after the whole stream, at the
    record that brought the count to the limit, or at the first record on
    which the admission check or the transformation raises, which leaves
    no output. *)
Lemma gen_for_records_ends (stream : list record) (self self' : KeemuBaseMixin)
    (trace : list event) (result : res bool) :
  gen_for records_body stream self = (trace, self', result) →
  ∃ k : nat, (k ≤ List.length stream)%nat ∧
    Forall2 (takes_path self) (take k stream) (outputs trace) ∧
    match result with
    | Ok false => k = List.length stream
    | Ok true => limit_reached self' = true
    | Raise e =>
        ∃ r, stream !! k = Some r ∧
          (is_admitted self r = Raise e ∨
           is_admitted self r = Ok true ∧ record_to_dict self r = Raise e)
    end.
Proof.
  revert self self' trace result.
  induction stream as [|r stream IH]; intros self self' trace result.
  - intros [= <- <- <-]. exists 0%nat. split; [done|]. split; [constructor | done].
  - rewrite gen_for_cons.
    destruct (records_body r self) as [[trace1 self1] result1] eqn:Hbody.
    destruct (records_body_result _ _ _ _ _ Hbody) as [[inserted ->] Hres].
    destruct result1 as [[|]|e].
    + destruct Hres as (Hstop & ev & Hpath & ->). intros [= <- <- <-].
      exists 1%nat. split; [simpl; lia|]. split; [|done].
      rewrite (outputs_path _ _ _ _ Hpath), outputs_debug_line.
      simpl. rewrite take_0. constructor; [done | constructor].
    + destruct Hres as (_ & ev & Hpath & ->).
      destruct (gen_for records_body stream _) as [[trace2 self2] result2] eqn:Hrest.
      intros [= <- <- <-]. destruct (IH _ _ _ _ Hrest) as (k & Hk & Hall & Hend).
      exists (S k). split; [simpl; lia|]. split.
      * rewrite <- ?app_comm_cons, (outputs_path _ _ _ _ Hpath).
        rewrite outputs_app, outputs_debug_line.
        simpl. constructor; [done | exact Hall].
      * destruct result2 as [[|]|e]; simpl; [done | by rewrite Hend | done].
    + destruct Hres as [-> Hraise]. intros [= <- <- <-].
      exists 0%nat. split; [lia|]. split; [constructor|]. by exists r.
Qed.

(** C8 (amended): in a run of [records], the rows and deletions come one
    for each record the loop went through, in the order of the stream: a
    row for a record that is admitted, a deletion and no row for a record
    on which the admission condition is false.  The loop goes through the
    whole stream unless it is left at the limit or at a record on which
    the admission check or the transformation raises; such a record takes
    none of the two paths.  A record that the loop reaches and on which
    the admission condition is false is handed to [delete_record]. *)
Theorem rejected_records_are_deleted (self self' : KeemuBaseMixin)
    (stream : list record) (trace : list event) (result : res unit) :
  records stream self = (trace, self', result) →
  (∃ k : nat, (k ≤ List.length stream)%nat ∧
     Forall2 (takes_path self) (take k stream) (outputs trace) ∧
     (result = Ok tt → k = List.length stream ∨ limit_reached self' = true) ∧
     (∀ e, result = Raise e →
        ∃ r, stream !! k = Some r ∧ ¬ processable self r ∧
          (is_admitted self r = Raise e ∨
           is_admitted self r = Ok true ∧ record_to_dict self r = Raise e))) ∧
  (∀ before r after trace1 self1,
     stream = before ++ r :: after →
     gen_for records_body before self = (trace1, self1, Ok false) →
     is_admitted self r = Ok false →
     (∃ rest, trace = trace1 ++ DeleteRecord r :: rest) ∧
     outputs trace !! List.length before = Some (DeleteRecord r)).
Proof.
  rewrite records_unfold. intros Hrun. split.
  - destruct (gen_for records_body stream self) as [[trace0 self0] result0] eqn:Hloop.
    destruct (gen_for_records_ends _ _ _ _ _ Hloop) as (k & Hk & Hpaths & Hend).
    exists k. split; [done|].
    destruct result0 as [stop|e]; injection Hrun as <- <- <-.
    + rewrite outputs_log_info. split; [done|]. split; [|done].
      intros _. destruct stop; [by right | by left].
    + split; [done|]. split; [done|]. intros e' [= <-].
      destruct Hend as (r & Hr & Hraise). exists r. split; [done|].
      split; [by eapply raising_not_processable | done].
  - intros before r after trace1 self1 -> Hbefore Hrejected.
    destruct (gen_for_records_paths _ _ _ _ _ Hbefore) as (k & _ & Hpaths & Hk).
    rewrite (Hk eq_refl), firstn_all in Hpaths.
    apply Forall2_length in Hpaths.
    destruct (gen_for_records_counts _ _ _ _ _ Hbefore) as (seen & inserted & ->).
    rewrite gen_for_app, Hbefore, gen_for_cons, records_body_unfold in Hrun.
    change (is_admitted (with_counts seen inserted self) r)
      with (is_admitted self r) in Hrun.
    rewrite Hrejected in Hrun. simpl in Hrun.
    destruct (limit_reached _) in Hrun.
    + injection Hrun as <- <- <-. split.
      * eexists. by rewrite <- app_assoc.
      * rewrite <- !app_assoc, outputs_app, Hpaths. simpl.
        by rewrite lookup_app_r, Nat.sub_diag by done.
    + destruct (gen_for records_body after _) as [[trace2 self2] result2].
      destruct result2; injection Hrun as <- <- <-.
      * split; [eexists; by rewrite <- !app_assoc|].
        rewrite <- !app_assoc, outputs_app, Hpaths. simpl.
        by rewrite lookup_app_r, Nat.sub_diag by done.
      * split; [by eexists|].
        rewrite outputs_app, Hpaths. simpl.
        by rewrite lookup_app_r, Nat.sub_diag by done.
Qed.

Lemma rejected_records_are_deleted_witness :
  outputs
    (records [specimen; draft; unpublished] (catalogue_task None)).1.1 !! 1%nat
  = Some (DeleteRecord draft).
Proof.
  destruct (rejected_records_are_deleted (catalogue_task None) _
              [specimen; draft; unpublished] _ _
              (triple_eta (records [specimen; draft; unpublished]
                             (catalogue_task None)))) as [_ Hdeleted].
  eapply proj2, (Hdeleted [specimen] draft [unpublished]); reflexivity.
Defined.

(** C8 as stated fails.  The record without [irn] is admitted and counted
    as inserted, and the run hands it neither to the consumer nor to
    [delete_record]; the record without the flag, which the publishability
    gate is to reject, is not handed to [delete_record] either. *)
Lemma counted_record_takes_no_path :
  is_admitted (catalogue_task None) nameless = Ok true ∧
  records [draft; nameless] (catalogue_task None) =
    ([DeleteRecord draft], with_counts 2 1 (catalogue_task None),
     Raise (AttributeError "irn")) ∧
  (DeleteRecord nameless ∉ [DeleteRecord draft]) ∧
  (∀ row, Yield row ∉ [DeleteRecord draft]) ∧
  unflagged !! "AdmPublishWebNoPasswordFlag" = None ∧
  records [draft; unflagged] (catalogue_task None) =
    ([DeleteRecord draft], with_counts 2 0 (catalogue_task None),
     Raise (AttributeError "AdmPublishWebNoPasswordFlag")) ∧
  DeleteRecord unflagged ∉ [DeleteRecord draft].
Proof.
  assert (∀ r1 r2, DeleteRecord r1 ∈ [DeleteRecord r2] → r1 !! "irn" = r2 !! "irn")
    as Hsame.
  { intros r1 r2 Hin. apply list_elem_of_singleton in Hin. by injection Hin as ->. }
  split_and!; try reflexivity.
  - by intros Hin%Hsame.
  - intros row [[=] | Hin]%elem_of_cons. by apply elem_of_nil in Hin.
  - by intros Hin%Hsame.
Qed.

(** C10 (amended): with a positive limit [n], and fewer than [n] records
    seen so far, the count of seen records never goes beyond [n]; when the
    records up to the one that brings the count to [n] can be processed,
    the run ends normally, its rows and deletions are those of exactly
    these records, admitted or rejected, the last one included, and the
    count ends at [n] or at the end of the stream.  With no limit, or the
    limit [0], a run over records that can be processed ends normally
    with a row or a deletion for every record of the stream. *)
Theorem limit_caps_records (self : KeemuBaseMixin) (stream : list record) :
  (∀ n, limit self = Some n → 0 < n → record_count self < n →
     (∀ trace self' result,
        records stream self = (trace, self', result) → record_count self' ≤ n) ∧
     (Forall (processable self)
        (take (Z.to_nat (n - record_count self)) stream) →
      ∃ trace self',
        records stream self = (trace, self', Ok tt) ∧
        Forall2 (takes_path self)
          (take (Z.to_nat (n - record_count self)) stream) (outputs trace) ∧
        record_count self' =
          Z.min n (record_count self + Z.of_nat (List.length stream)))) ∧
  (limit self = None ∨ limit self = Some 0 →
   Forall (processable self) stream →
   ∃ trace self',
     records stream self = (trace, self', Ok tt) ∧
     Forall2 (takes_path self) stream (outputs trace) ∧
     record_count self' = record_count self + Z.of_nat (List.length stream)).
Proof.
  split.
  - intros n Hlimit Hn Hseen. split.
    + intros trace self' result. rewrite records_unfold.
      destruct (gen_for records_body stream self) as [[trace0 self0] result0] eqn:Hloop.
      apply (loop_bound n) in Hloop; [|done..].
      destruct result0; by intros [= <- <- <-].
    + intros Hall.
      destruct (loop_capped n stream self Hlimit Hn Hseen Hall)
        as (trace & self' & stop & Hloop & Hpaths & Hcount).
      rewrite records_unfold, Hloop. eexists _, _. split; [done|].
      by rewrite outputs_log_info.
  - intros Hlimit Hall.
    destruct (loop_uncapped stream self Hlimit Hall)
      as (trace & self' & Hloop & Hpaths & Hcount).
    rewrite records_unfold, Hloop. eexists _, _. split; [done|].
    by rewrite outputs_log_info.
Qed.

Lemma specimen_path :
  takes_path (catalogue_task (Some 2)) specimen
    (Yield (<["multimedia" := PyInt 0]>
              (<["locations" := PyList [PyStr "Room 3"]]>
                 (<["kind" := PyNone]>
                    (<["import_date" := PyInt 20240101]>
                       (<["properties" := PyDict ∅]>
                          (<["irn" := PyInt 1]> ∅))))))).
Proof. left. split; [reflexivity|]. eexists. split; reflexivity. Qed.

Lemma draft_path (limit : option Z) :
  takes_path (catalogue_task limit) draft (DeleteRecord draft).
Proof. right. split; reflexivity. Qed.

Lemma unpublished_path (limit : option Z) :
  takes_path (catalogue_task limit) unpublished (DeleteRecord unpublished).
Proof. right. split; reflexivity. Qed.

Lemma limit_caps_records_witness :
  (∃ trace self',
     records [specimen; draft; unpublished] (catalogue_task (Some 2)) =
       (trace, self', Ok tt) ∧
     Forall2 (takes_path (catalogue_task (Some 2))) [specimen; draft]
       (outputs trace) ∧
     record_count self' = 2) ∧
  (∃ trace self',
     records [draft; unpublished; draft] (catalogue_task (Some 0)) =
       (trace, self', Ok tt) ∧
     Forall2 (takes_path (catalogue_task (Some 0))) [draft; unpublished; draft]
       (outputs trace) ∧
     record_count self' = 3).
Proof.
  split.
  - apply (proj1 (limit_caps_records (catalogue_task (Some 2))
                    [specimen; draft; unpublished]) 2 eq_refl); [lia | simpl; lia |].
    repeat constructor.
    + eexists. apply specimen_path.
    + eexists. apply draft_path.
  - apply (proj2 (limit_caps_records (catalogue_task (Some 0))
                    [draft; unpublished; draft])); [by right|].
    repeat constructor.
    + eexists. apply draft_path.
    + eexists. apply unpublished_path.
    + eexists. apply draft_path.
Defined.

(** C10 as stated fails on a stream with a record that cannot be
    processed.  With the limit 2 the run ends at the second record, which
    is neither yielded nor deleted; with no limit the run ends at the
    first record, and the admissible record after it is never reached. *)
Lemma limit_meets_unprocessable_record :
  records [specimen; nameless; draft] (catalogue_task (Some 2)) =
    ([Yield specimen_row], with_counts 2 2 (catalogue_task (Some 2)),
     Raise (AttributeError "irn")) ∧
  List.length (outputs [Yield specimen_row]) = 1%nat ∧
  records [nameless; specimen] (catalogue_task None) =
    ([], with_counts 1 1 (catalogue_task None), Raise (AttributeError "irn")) ∧
  is_admitted (catalogue_task None) specimen = Ok true ∧
  record_to_dict (catalogue_task None) specimen = Ok specimen_row.
Proof. split_and!; reflexivity. Qed.

(** C2 (amended): when the loop of [records] reaches an admitted record
    without [irn], the transformation raises [AttributeError] and nothing
    catches it: the run ends with this exception, the trace is what was
    produced for the records before it, with no log line for the record,
    and no later record is processed. *)
Theorem missing_irn_aborts_stream (self self1 : KeemuBaseMixin)
    (before after : list record) (r : record) (trace1 : list event) :
  gen_for records_body before self = (trace1, self1, Ok false) →
  is_admitted self r = Ok true →
  r !! "irn" = None →
  record_to_dict self r = Raise (AttributeError "irn") ∧
  records (before ++ r :: after) self =
    (trace1,
     set_insert_count (insert_count self1 + 1)
       (set_record_count (record_count self1 + 1) self1),
     Raise (AttributeError "irn")).
Proof.
  intros Hbefore Hadmitted Hirn.
  pose proof (record_to_dict_no_irn self r Hirn) as Hraise. split; [done|].
  destruct (gen_for_records_counts _ _ _ _ _ Hbefore) as (seen & inserted & ->).
  rewrite records_unfold, gen_for_app, Hbefore, gen_for_cons, records_body_unfold.
  change (is_admitted (with_counts seen inserted self) r) with (is_admitted self r).
  change (record_to_dict (with_counts seen inserted self) r)
    with (record_to_dict self r).
  rewrite Hadmitted, Hraise. simpl. by rewrite app_nil_r.
Qed.

Lemma missing_irn_aborts_stream_witness :
  records ([draft] ++ nameless :: [specimen]) (catalogue_task None) =
    ([DeleteRecord draft],
     set_insert_count 1 (set_record_count 2 (catalogue_task None)),
     Raise (AttributeError "irn")).
Proof.
  apply (missing_irn_aborts_stream (catalogue_task None)
           (set_record_count 1 (catalogue_task None)) [draft] [specimen] nameless
           [DeleteRecord draft]); reflexivity.
Defined.

(** C2 as stated fails: the record without [irn] is not skipped; the run
    raises, and the admissible record after it is never yielded. *)
Lemma missing_irn_not_isolated :
  is_admitted (catalogue_task None) nameless = Ok true ∧
  is_admitted (catalogue_task None) specimen = Ok true ∧
  records [nameless; specimen] (catalogue_task None) =
    ([], set_insert_count 1 (set_record_count 1 (catalogue_task None)),
     Raise (AttributeError "irn")).
Proof. split; [|split]; reflexivity. Qed.

Lemma catalogue_task_init (limit : option Z) :
  __init__ joined_task_id catalogue 20240101 limit = Ok (catalogue_task limit).
Proof. reflexivity. Qed.

Lemma guarded_task_init (limit : option Z) :
  __init__ joined_task_id guarded_catalogue 20240101 limit = Ok (guarded_task limit).
Proof. reflexivity. Qed.

Lemma records_counts (stream : list record) (self self' : KeemuBaseMixin)
    (trace : list event) (result : res unit) :
  records stream self = (trace, self', result) →
  ∃ seen inserted, self' = with_counts seen inserted self.
Proof.
  rewrite records_unfold.
  destruct (gen_for records_body stream self) as [[trace1 self1] result1] eqn:Hloop.
  apply gen_for_records_counts in Hloop.
  destruct result1; by intros [= <- <- <-].
Qed.

(** ** The task identity *)

Lemma dict_snoc {V} (pairs : list (string * V)) (k : string) (v : V) :
  dict (pairs ++ [(k, v)]) = <[k := v]> (dict pairs).
Proof. unfold dict. by rewrite fold_left_app. Qed.

(** [dict] holds under a key the value of the last pair with this key. *)
Lemma dict_lookup_Some {V} (pairs : list (string * V)) (k : string) (v : V) :
  dict pairs !! k = Some v ↔
  ∃ before after, pairs = before ++ (k, v) :: after ∧ k ∉ after.*1.
Proof.
  induction pairs as [|[k' v'] pairs IH] using rev_ind.
  - split; [done|]. intros (before & after & Heq & _). by destruct before.
  - rewrite dict_snoc. destruct (decide (k' = k)) as [->|Hne].
    + rewrite lookup_insert_eq. split.
      * intros [= ->]. exists pairs, []. split; [done|]. apply not_elem_of_nil.
      * intros (before & after & Heq & Hlast).
        destruct after as [|kv after _] using rev_ind.
        -- by apply app_inj_tail in Heq as [_ [= ->]].
        -- exfalso. apply Hlast.
           rewrite app_comm_cons, app_assoc in Heq.
           apply app_inj_tail in Heq as [_ <-].
           rewrite fmap_app. apply elem_of_app. right. left.
    + rewrite lookup_insert_ne by done. rewrite IH. split.
      * intros (before & after & -> & Hlast).
        exists before, (after ++ [(k', v')]). split; [by rewrite <- app_assoc|].
        rewrite fmap_app. intros [Hin | Hin%list_elem_of_singleton]%elem_of_app;
          [done | by apply Hne].
      * intros (before & after & Heq & Hlast).
        destruct after as [|kv after _] using rev_ind.
        -- apply app_inj_tail in Heq as [_ [= -> _]]. done.
        -- rewrite app_comm_cons, app_assoc in Heq.
           apply app_inj_tail in Heq as [-> <-].
           exists before, after. split; [done|].
           intros Hin. apply Hlast. rewrite fmap_app. apply elem_of_app. by left.
Qed.

Lemma to_str_params_lookup (params : gmap string param) (name value : string) :
  to_str_params true params !! name = Some value ↔
  ∃ p, params !! name = Some p ∧ significant p = true ∧ serialized p = value.
Proof.
  unfold to_str_params. rewrite lookup_fmap, fmap_Some. split.
  - intros (p & [Hp Hsig]%map_lookup_filter_Some & ->). by exists p.
  - intros (p & Hp & Hsig & <-). exists p. split; [|done].
    by apply map_lookup_filter_Some.
Qed.

Lemma keyed_names (params : list param) :
  ((λ p, (param_name p, p)) <$> params).*1 = param_name <$> params.
Proof. by rewrite <- list_fmap_compose. Qed.

(** The parameters that identify a task are its significant parameters. *)
Lemma to_str_params_significant (c : KeemuClass) (d : Z) (l : option Z)
    (name value : string) :
  to_str_params true (param_kwargs c d l) !! name = Some value ↔
  significant_parameter c d name value.
Proof.
  rewrite to_str_params_lookup. unfold param_kwargs, significant_parameter.
  split.
  - intros (p & (before & after & Heq & Hlast)%dict_lookup_Some & Hsig & <-).
    rewrite !fmap_cons in Heq. destruct before as [|first before].
    { injection Heq as <- <- <-. left. split; [done|]. split; [done|].
      rewrite fmap_cons, keyed_names in Hlast. intros Hin. apply Hlast. by right. }
    destruct before as [|second before].
    { injection Heq as _ _ <- _. done. }
    injection Heq as _ _ Heq. right. exists p.
    apply fmap_app_inv in Heq as (before' & rest & -> & Hrest & Htp).
    symmetry in Hrest.
    apply fmap_cons_inv in Hrest as (p' & after' & [= -> <-] & -> & ->).
    split; [|done]. exists before', after'. split; [done|].
    by rewrite keyed_names in Hlast.
  - intros [(-> & -> & Hfree) | (p & (before & after & Heq & Hlast) & Hsig & <- & <-)].
    + exists {| param_name := "date"; significant := true; serialized := str_int d |}.
      split; [|done]. apply dict_lookup_Some.
      exists [],
        ((λ p, (param_name p, p)) <$>
         ({| param_name := "limit"; significant := false;
             serialized := str_limit l |} :: task_params c)).
      split; [reflexivity|]. rewrite keyed_names.
      intros [[=] | Hin]%elem_of_cons. done.
    + exists p. split; [|done]. apply dict_lookup_Some.
      exists ((λ p, (param_name p, p)) <$>
              ({| param_name := "date"; significant := true;
                  serialized := str_int d |} ::
               {| param_name := "limit"; significant := false;
                  serialized := str_limit l |} :: before)),
        ((λ p, (param_name p, p)) <$> after).
      split; [|by rewrite keyed_names].
      by rewrite Heq, !fmap_cons, fmap_app, fmap_cons.
Qed.

Section Initialised.
Variable task_id_str : string → gmap string string → string.

(** C9: the two lists built by [__init__] divide the declared field
    mappings: a mapping whose alias is a declared column is a metadata
    field and no property field, any other mapping is a property field
    and no metadata field; nothing else is in the lists; and a run of
    [records] leaves both lists as they are. *)
Theorem field_partition (c : KeemuClass) (date : Z) (limit : option Z)
    (self : KeemuBaseMixin) :
  __init__ task_id_str c date limit = Ok self →
  (∀ field, field ∈ fields c →
     (field.2 ∈ column_names c ∧
      field ∈ _metadata_fields self ∧ field ∉ _property_fields self) ∨
     ((field.2 ∉ column_names c) ∧
      field ∈ _property_fields self ∧ field ∉ _metadata_fields self)) ∧
  (∀ field, field ∈ _metadata_fields self ∨ field ∈ _property_fields self →
     field ∈ fields c) ∧
  _metadata_fields self ++ _property_fields self ≡ₚ fields c ∧
  (∀ stream trace self' result,
     records stream self = (trace, self', result) →
     _metadata_fields self' = _metadata_fields self ∧
     _property_fields self' = _property_fields self).
Proof.
  intros (types & _ & _ & _ & _ & Hprop & Hmeta & _)%init_Ok.
  rewrite Hprop, Hmeta. split_and!.
  - intros field Hin. rewrite !list_elem_of_filter.
    destruct (decide (field.2 ∈ column_names c)); [left | right]; tauto.
  - intros field. rewrite !list_elem_of_filter. tauto.
  - apply filter_app_complement.
  - intros stream trace self' result (seen & inserted & ->)%records_counts.
    simpl. by rewrite Hprop, Hmeta.
Qed.

(** C7: the task identity is computed from the table name and the
    significant parameters only.  The parameters handed to [task_id_str]
    are exactly the significant parameters of the unit, of which the limit
    of the mixin is none; so two units over the same table with the same
    significant parameters have the same identity, whatever their
    limits. *)
Theorem task_id_ignores_limit (c1 c2 : KeemuClass) (date1 date2 : Z)
    (limit1 limit2 : option Z) (self1 self2 : KeemuBaseMixin) :
  __init__ task_id_str c1 date1 limit1 = Ok self1 →
  __init__ task_id_str c2 date2 limit2 = Ok self2 →
  (∃ params,
     task_id self1 = task_id_str (table c1) params ∧
     ∀ name value,
       params !! name = Some value ↔ significant_parameter c1 date1 name value) ∧
  (table c1 = table c2 →
   (∀ name value,
      significant_parameter c1 date1 name value ↔
      significant_parameter c2 date2 name value) →
   task_id self1 = task_id self2).
Proof.
  intros (_ & _ & _ & _ & _ & _ & _ & _ & -> & _)%init_Ok.
  intros (_ & _ & _ & _ & _ & _ & _ & _ & -> & _)%init_Ok.
  split.
  - eexists. split; [done|]. intros name value. apply to_str_params_significant.
  - intros -> Hsame. f_equal. apply map_eq. intros name.
    apply option_eq. intros value.
    by rewrite !to_str_params_significant.
Qed.

(** C5: how the code classifies the columns.  [_column_is_array] holds
    of a string exactly when it contains the marker, as its docstring
    says; but [__init__] and [ensure_indexes] apply it to the type token
    that [get_column_types] keeps of a declaration, and the token keeps
    the marker only when it comes right after the leading capitals.  So
    a declared column is classified as an array exactly then, and an
    array type with a length or a second word is missed.  The index
    statements are, in order, one for each column other than [irn] and
    [properties], with GIN for the columns classified as arrays and
    BTREE for the others; no index statement names [irn] or
    [properties]. *)
Theorem index_strategy (c : KeemuClass) (date : Z) (limit : option Z)
    (self : KeemuBaseMixin) :
  __init__ task_id_str c date limit = Ok self →
  (∀ col_def, _column_is_array col_def = true ↔ contains_array_marker col_def) ∧
  ∃ types,
    get_column_types c = Ok types ∧
    Forall2 (λ col ty,
        ty.1 = col.1 ∧
        (_column_is_array ty.2 = true ↔ array_marker_follows_type col.2))
      (columns c) types ∧
    (∀ name, name ∈ _array_fields self ↔
       ∃ decl, (name, decl) ∈ columns c ∧ array_marker_follows_type decl) ∧
    ensure_indexes self =
      Ok ((λ ty, create_index_query (table c)
                   (if _column_is_array ty.2 then "GIN" else "BTREE") ty.1) <$>
          filter (λ ty, ty.1 ∉ ["irn"; "properties"]) types) ∧
    (∀ executed idx_type col_name,
       ensure_indexes self = Ok executed →
       idx_type ∈ ["GIN"; "BTREE"] →
       col_name ∈ ["irn"; "properties"] →
       create_index_query (table c) idx_type col_name ∉ executed).
Proof.
  intros (types & Htypes & Hcls & _ & _ & _ & _ & Harr & _)%init_Ok.
  split; [intros col_def; apply str_contains_spec|].
  assert (ensure_indexes self =
    Ok ((λ ty, create_index_query (table c)
                 (if _column_is_array ty.2 then "GIN" else "BTREE") ty.1) <$>
        filter (λ ty, ty.1 ∉ ["irn"; "properties"]) types)) as Hindexes.
  { unfold ensure_indexes. rewrite Hcls, Htypes. simpl.
    by rewrite ensure_indexes_acc. }
  exists types. split_and!; try done.
  - eapply Forall2_impl; [by apply get_column_types_Ok|].
    intros col ty [Hname Hre]. split; [done|]. by apply regex_match_is_array.
  - intros name. rewrite Harr. by apply array_fields_spec.
  - intros executed idx_type col_name Hexec Hidx Hcol Hin.
    rewrite Hindexes in Hexec. injection Hexec as <-.
    apply list_elem_of_fmap in Hin as (ty & Heq & [Hnot _]%list_elem_of_filter).
    apply create_index_query_inj in Heq; [congruence|done|].
    destruct (_column_is_array ty.2); [left | right; left].
Qed.

(** C3: what [record_to_dict] stores in an array column.  For a record
    with an [irn], a metadata field mapping that is the last one declared
    for its alias, and an alias whose column is classified as an array,
    the row holds the resolved value wrapped in a one-element list when
    the value is true and no list, and [None] when the field is absent.
    The test that lets [None] through is a truth test, so a value that is
    present and false (the empty string, zero, [False]) is held bare,
    where the code means to ensure a list; a list is held as it is. *)
Theorem array_column_value (c : KeemuClass) (date : Z) (limit : option Z)
    (self : KeemuBaseMixin) (r : record) (irn : value)
    (before after : list (string * string)) (ke_field alias decl : string) :
  __init__ task_id_str c date limit = Ok self →
  r !! "irn" = Some irn →
  fields c = before ++ (ke_field, alias) :: after →
  alias ∉ after.*2 →
  (alias, decl) ∈ columns c →
  array_marker_follows_type decl →
  ∃ row, record_to_dict self r = Ok row ∧
    let v := getattr_default r ke_field PyNone in
    (truthy v = true → type_is_not_list v = true →
       row !! alias = Some (PyList [v])) ∧
    (r !! ke_field = None → row !! alias = Some PyNone) ∧
    (truthy v = false ∨ type_is_not_list v = false → row !! alias = Some v).
Proof.
  intros Hinit Hirn Hfields Hlast Hcol Harray.
  pose proof (init_array_fields _ _ _ _ _ alias Hinit) as Harr.
  apply init_Ok in Hinit as (_ & _ & _ & _ & _ & _ & Hmeta & _).
  assert (alias ∈ column_names c) as Hname
    by (apply list_elem_of_fmap; by exists (alias, decl)).
  assert (alias ∈ _array_fields self) as Hin by (apply Harr; eauto).
  eexists. split; [by apply record_to_dict_Ok|].
  rewrite Hmeta, Hfields, filter_app, filter_cons_True by done.
  rewrite (fold_insert_last
    (λ field, stored_value self field.2 (getattr_default r field.1 PyNone))
    _ _ (ke_field, alias)).
  2:{ simpl. intros (field & -> & [_ Hfield]%list_elem_of_filter)%list_elem_of_fmap.
      apply Hlast, list_elem_of_fmap. by exists field. }
  simpl. unfold stored_value. rewrite bool_decide_eq_true_2 by done.
  split_and!.
  - by intros -> ->.
  - intros Hnone. unfold getattr_default. by rewrite Hnone.
  - intros [-> | ->]; [done|]. by rewrite andb_false_r.
Qed.

(** C4 (amended): for a record with an [irn], the keys of the mapping
    that [record_to_dict] builds for [properties] are exactly the aliases
    of the field mappings whose alias is no declared column and whose
    resolved value is true (so [None], the empty string, the empty list,
    and also zero and [False] are left out); each value is such a
    resolved value; no key is a declared column; and the row holds this
    mapping under [properties] when no field mapping is itself aliased
    [properties]. *)
Theorem properties_of_row (c : KeemuClass) (date : Z) (limit : option Z)
    (self : KeemuBaseMixin) (r : record) (irn : value) :
  __init__ task_id_str c date limit = Ok self →
  r !! "irn" = Some irn →
  ∃ row, record_to_dict self r = Ok row ∧
    ((∀ field, field ∈ fields c → field.2 ≠ "properties") →
     row !! "properties" = Some (PyDict (get_properties self r))) ∧
    (∀ alias, is_Some (get_properties self r !! alias) ↔
       ∃ ke_field, (ke_field, alias) ∈ fields c ∧ (alias ∉ column_names c) ∧
         truthy (getattr_default r ke_field PyNone) = true) ∧
    (∀ alias v, get_properties self r !! alias = Some v →
       ∃ ke_field, (ke_field, alias) ∈ fields c ∧
         v = getattr_default r ke_field PyNone ∧ truthy v = true) ∧
    (∀ alias, is_Some (get_properties self r !! alias) → alias ∉ column_names c).
Proof.
  intros (_ & _ & _ & _ & _ & Hprop & Hmeta & _)%init_Ok Hirn.
  assert (∀ alias, is_Some (get_properties self r !! alias) ↔
       ∃ ke_field, (ke_field, alias) ∈ fields c ∧ (alias ∉ column_names c) ∧
         truthy (getattr_default r ke_field PyNone) = true) as Hkeys.
  { intros alias. rewrite get_properties_dom, Hprop. split.
    - intros (ke & [Hcol Hin]%list_elem_of_filter & Htrue). by exists ke.
    - intros (ke & Hin & Hcol & Htrue). exists ke. split; [|done].
      by apply list_elem_of_filter. }
  eexists. split; [by apply record_to_dict_Ok|]. split_and!; [|done| |].
  - intros Hfree. rewrite fold_insert_other.
    + rewrite lookup_insert_ne by done. apply lookup_insert_eq.
    + rewrite Hmeta.
      intros (field & Heq & [_ Hfield]%list_elem_of_filter)%list_elem_of_fmap.
      by apply (Hfree field).
  - intros alias v (ke & Hin & Hv)%get_properties_value. exists ke. split; [|done].
    rewrite Hprop in Hin. by apply list_elem_of_filter in Hin as [_ Hin].
  - intros alias (ke & _ & Hcol & _)%Hkeys. done.
Qed.
End Initialised.

Lemma field_partition_witness :
  ("LocCurrentLocation", "locations") ∈ _metadata_fields (catalogue_task None) ∧
  ("NteNote", "collector_note") ∈ _property_fields (catalogue_task None) ∧
  _metadata_fields (catalogue_task None) ++ _property_fields (catalogue_task None)
    ≡ₚ fields catalogue ∧
  _metadata_fields (records [specimen; draft] (catalogue_task None)).1.2 =
    _metadata_fields (catalogue_task None).
Proof.
  destruct (field_partition joined_task_id catalogue 20240101 None
              (catalogue_task None) eq_refl) as (Hsides & _ & Hall & Hfixed).
  split; [|split; [|split; [done|]]];
    [| | by eapply Hfixed, (triple_eta (records [specimen; draft] _))].
  - destruct (Hsides ("LocCurrentLocation", "locations")) as [(_ & Hin & _) | (Hcol & _)].
    + apply list_elem_of_lookup. by exists 1%nat.
    + done.
    + exfalso. apply Hcol, list_elem_of_lookup. by exists 7%nat.
  - destruct (Hsides ("NteNote", "collector_note")) as [(Hcol & _) | (_ & Hin & _)].
    + apply list_elem_of_lookup. by exists 3%nat.
    + exfalso. revert Hcol. not_in_list.
    + done.
Defined.

Lemma task_id_ignores_limit_witness :
  task_id (catalogue_task (Some 5)) = task_id (guarded_task None).
Proof.
  apply (task_id_ignores_limit joined_task_id catalogue guarded_catalogue
           20240101 20240101 (Some 5) None); [reflexivity..|].
  intros name value. unfold significant_parameter. split.
  - intros [(-> & -> & _) | (p & (before & after & Heq & _) & _)].
    + left. split; [done|]. split; [done|]. not_in_list.
    + by destruct before.
  - intros [(-> & -> & _) | (p & (before & after & Heq & _) & Hsig & _)].
    + left. split; [done|]. split; [done|]. apply not_elem_of_nil.
    + destruct before as [|q before]; [|by destruct before].
      injection Heq as <- _. done.
Defined.

Lemma index_strategy_witness :
  ("CREATE INDEX ON catalogue USING BTREE (irn)" ∉ catalogue_indexes) ∧
  "CREATE INDEX ON catalogue USING GIN (properties)" ∉ catalogue_indexes.
Proof.
  destruct (index_strategy joined_task_id catalogue 20240101 None
              (catalogue_task None) eq_refl)
    as (_ & types & _ & _ & _ & _ & Hnone).
  split.
  - apply (Hnone catalogue_indexes "BTREE" "irn"); [reflexivity | |].
    + right. left.
    + left.
  - apply (Hnone catalogue_indexes "GIN" "properties"); [reflexivity | |].
    + left.
    + right. left.
Defined.

(** C5 at the failing input: the declaration [VARCHAR(10)[]] contains the
    marker, but the type token kept of it is [VARCHAR]; the column is not
    classified as an array and gets a BTREE index. *)
Lemma marker_after_length_not_array :
  ("codes", "VARCHAR(10)[]") ∈ columns catalogue ∧
  contains_array_marker "VARCHAR(10)[]" ∧
  regex_match "VARCHAR(10)[]" = Some "VARCHAR" ∧
  _column_is_array "VARCHAR" = false ∧
  __init__ joined_task_id catalogue 20240101 None = Ok (catalogue_task None) ∧
  ("codes" ∉ _array_fields (catalogue_task None)) ∧
  ensure_indexes (catalogue_task None) = Ok catalogue_indexes ∧
  "CREATE INDEX ON catalogue USING BTREE (codes)" ∈ catalogue_indexes.
Proof.
  split_and!; try reflexivity.
  - apply list_elem_of_lookup. by exists 9%nat.
  - by exists "VARCHAR(10)", "".
  - not_in_list.
  - apply list_elem_of_lookup. by exists 7%nat.
Qed.

Lemma array_column_value_witness :
  (∃ row,
     record_to_dict (catalogue_task None) specimen = Ok row ∧
     row !! "locations" = Some (PyList [PyStr "Room 3"])) ∧
  (∃ row,
     record_to_dict (catalogue_task None) annotated = Ok row ∧
     row !! "locations" = Some PyNone).
Proof.
  split.
  - destruct (array_column_value joined_task_id catalogue 20240101 None
                (catalogue_task None) specimen (PyInt 1)
                [("ColKind", "kind")]
                [("MulMultiMediaRef", "multimedia"); ("NteNote", "collector_note");
                 ("NteCount", "note_count")]
                "LocCurrentLocation" "locations" "TEXT[]")
      as (row & Hrow & Hwrapped & _).
    + reflexivity.
    + reflexivity.
    + reflexivity.
    + not_in_list.
    + apply list_elem_of_lookup. by exists 7%nat.
    + by exists "TEXT", "".
    + exists row. split; [done|]. by apply Hwrapped.
  - destruct (array_column_value joined_task_id catalogue 20240101 None
                (catalogue_task None) annotated (PyInt 5)
                [("ColKind", "kind")]
                [("MulMultiMediaRef", "multimedia"); ("NteNote", "collector_note");
                 ("NteCount", "note_count")]
                "LocCurrentLocation" "locations" "TEXT[]")
      as (row & Hrow & _ & Habsent & _).
    + reflexivity.
    + reflexivity.
    + reflexivity.
    + not_in_list.
    + apply list_elem_of_lookup. by exists 7%nat.
    + by exists "TEXT", "".
    + exists row. split; [done|]. by apply Habsent.
Defined.

(** C3 at the failing input: the multimedia reference of [specimen] is
    present and no list, its column is an array column, and the row holds
    the bare number. *)
Lemma zero_in_array_column_not_wrapped :
  __init__ joined_task_id catalogue 20240101 None = Ok (catalogue_task None) ∧
  ("multimedia", "INTEGER[]") ∈ columns catalogue ∧
  "multimedia" ∈ _array_fields (catalogue_task None) ∧
  ("MulMultiMediaRef", "multimedia") ∈ _metadata_fields (catalogue_task None) ∧
  is_admitted (catalogue_task None) specimen = Ok true ∧
  specimen !! "MulMultiMediaRef" = Some (PyInt 0) ∧
  type_is_not_list (PyInt 0) = true ∧
  record_to_dict (catalogue_task None) specimen = Ok specimen_row ∧
  specimen_row !! "multimedia" = Some (PyInt 0) ∧
  specimen_row !! "multimedia" ≠ Some (PyList [PyInt 0]).
Proof.
  split_and!; try reflexivity; try done.
  - apply list_elem_of_lookup. by exists 8%nat.
  - apply list_elem_of_lookup. by exists 1%nat.
  - apply list_elem_of_lookup. by exists 2%nat.
Qed.

Lemma properties_of_row_witness :
  ∃ row,
    record_to_dict (catalogue_task None) annotated = Ok row ∧
    row !! "properties" =
      Some (PyDict (get_properties (catalogue_task None) annotated)) ∧
    get_properties (catalogue_task None) annotated !! "collector_note" =
      Some (PyStr "rare specimen") ∧
    "collector_note" ∉ column_names catalogue.
Proof.
  destruct (properties_of_row joined_task_id catalogue 20240101 None
              (catalogue_task None) annotated (PyInt 5))
    as (row & Hrow & Hproperties & _ & _ & Hcolumns).
  - reflexivity.
  - reflexivity.
  - exists row. split; [done|]. split; [|split; [reflexivity|]].
    + apply Hproperties. intros field Hin.
      repeat (apply elem_of_cons in Hin as [-> | Hin]; [discriminate|]).
      by apply elem_of_nil in Hin.
    + apply Hcolumns. by eexists.
Defined.

(** C4 as stated fails: the note count of [specimen] is the number zero,
    neither absent nor empty, its alias is a property field, and
    [properties] does not have it. *)
Lemma zero_count_left_out_of_properties :
  __init__ joined_task_id catalogue 20240101 None = Ok (catalogue_task None) ∧
  ("NteCount", "note_count") ∈ _property_fields (catalogue_task None) ∧
  is_admitted (catalogue_task None) specimen = Ok true ∧
  specimen !! "NteCount" = Some (PyInt 0) ∧
  empty_or_absent (getattr_default specimen "NteCount" PyNone) = false ∧
  record_to_dict (catalogue_task None) specimen = Ok specimen_row ∧
  specimen_row !! "properties" =
    Some (PyDict (get_properties (catalogue_task None) specimen)) ∧
  get_properties (catalogue_task None) specimen !! "note_count" = None.
Proof.
  split_and!; try reflexivity.
  apply list_elem_of_lookup. by exists 1%nat.
Qed.

(** ** The scenarios of the specification, run on the catalogue module *)

Example catalogue_column_types :
  get_column_types catalogue =
  Ok [ ("irn", "INTEGER"); ("created", "TIMESTAMP"); ("modified", "TIMESTAMP");
       ("deleted", "TIMESTAMP"); ("properties", "JSONB");
       ("import_date", "INTEGER"); ("kind", "TEXT"); ("locations", "TEXT[]");
       ("multimedia", "INTEGER[]"); ("codes", "VARCHAR") ].
Proof. reflexivity. Qed.

Example scalar_location_is_wrapped :
  specimen !! "LocCurrentLocation" = Some (PyStr "Room 3") ∧
  specimen_row !! "locations" = Some (PyList [PyStr "Room 3"]).
Proof. split; reflexivity. Qed.

Example absent_location_is_null :
  annotated !! "LocCurrentLocation" = None ∧
  res_bind (record_to_dict (catalogue_task None) annotated)
    (λ row, Ok (row !! "locations")) = Ok (Some PyNone).
Proof. split; reflexivity. Qed.

Example empty_note_is_left_out :
  specimen !! "NteNote" = Some (PyStr "") ∧
  get_properties (catalogue_task None) specimen !! "collector_note" = None ∧
  get_properties (catalogue_task None) annotated !! "collector_note" =
    Some (PyStr "rare specimen").
Proof. split_and!; reflexivity. Qed.

Example unpublished_is_rejected_whatever_the_filters :
  is_admitted (catalogue_task None) unpublished = Ok false ∧
  is_admitted (guarded_task None) unpublished = Ok false.
Proof. split; reflexivity. Qed.

Example lowercase_type_fails_initialisation :
  __init__ joined_task_id
    {| module_name := "catalogue"; fields := []; filters := []; task_params := [];
       columns := base_columns ++ [("locations", "text[]")] |} 20240101 None =
  Raise (AttributeError "group").
Proof. reflexivity. Qed.

Example limit_of_two_stops_after_the_second_record :
  records [specimen; draft; unpublished] (catalogue_task (Some 2)) =
  ([Yield specimen_row; DeleteRecord draft; LogInfo 1 "catalogue"],
   with_counts 2 1 (catalogue_task (Some 2)), Ok tt).
Proof. reflexivity. Qed.

(** ** More on the loop of [records] *)

Lemma yielded_app (t1 t2 : list event) : yielded (t1 ++ t2) = yielded t1 ++ yielded t2.
Proof. apply omap_app. Qed.

Lemma summaries_app (t1 t2 : list event) :
  summaries (t1 ++ t2) = summaries t1 ++ summaries t2.
Proof. apply filter_app. Qed.

Lemma debug_counts_app (t1 t2 : list event) :
  debug_counts (t1 ++ t2) = debug_counts t1 ++ debug_counts t2.
Proof. apply omap_app. Qed.

Lemma yielded_debug_line (self : KeemuBaseMixin) : yielded (debug_line self) = [].
Proof.
  unfold debug_line. destruct (limit_reached self); [done|].
  by destruct (record_count self mod 1000 =? 0).
Qed.

Lemma summaries_debug_line (self : KeemuBaseMixin) : summaries (debug_line self) = [].
Proof.
  unfold debug_line. destruct (limit_reached self); [done|].
  by destruct (record_count self mod 1000 =? 0).
Qed.

Lemma yielded_le_outputs (trace : list event) :
  (List.length (yielded trace) ≤ List.length (outputs trace))%nat.
Proof.
  induction trace as [|ev trace IH]; [done|].
  change (ev :: trace) with ([ev] ++ trace).
  rewrite yielded_app, outputs_app, !length_app.
  assert (List.length (yielded [ev]) ≤ List.length (outputs [ev]))%nat
    by (destruct ev; simpl; lia).
  lia.
Qed.

Lemma tally_cons (ev : event) (trace : list event) :
  is_output ev = true →
  summaries (ev :: trace) = summaries trace ∧
  List.length (outputs (ev :: trace)) = S (List.length (outputs trace)) ∧
  List.length (yielded (ev :: trace)) =
    (List.length (yielded [ev]) + List.length (yielded trace))%nat.
Proof.
  intros Hev. change (ev :: trace) with ([ev] ++ trace).
  rewrite summaries_app, outputs_app, yielded_app, !length_app.
  by destruct ev.
Qed.

(** What one round of the loop does to the trace and to the counters. *)
Lemma records_body_counts (r : record) (self self' : KeemuBaseMixin)
    (trace : list event) (result : res bool) :
  records_body r self = (trace, self', result) →
  summaries trace = [] ∧
  record_count self' = record_count self + 1 ∧
  match result with
  | Ok _ =>
      List.length (outputs trace) = 1%nat ∧
      insert_count self' = insert_count self + Z.of_nat (List.length (yielded trace))
  | Raise _ =>
      trace = [] ∧
      insert_count self ≤ insert_count self' ≤ insert_count self + 1
  end.
Proof.
  rewrite records_body_unfold. cbv zeta.
  destruct (is_admitted self r) as [[|]|e].
  - destruct (record_to_dict self r) as [row|e]; intros [= <- <- <-].
    + destruct (tally_cons (Yield row)
                  (debug_line (set_insert_count (insert_count self + 1)
                     (set_record_count (record_count self + 1) self))) eq_refl)
        as (-> & -> & ->).
      rewrite summaries_debug_line, outputs_debug_line, yielded_debug_line.
      simpl. split_and!; done || lia.
    + simpl. split_and!; done || lia.
  - intros [= <- <- <-].
    destruct (tally_cons (DeleteRecord r)
                (debug_line (set_record_count (record_count self + 1) self)) eq_refl)
      as (-> & -> & ->).
    rewrite summaries_debug_line, outputs_debug_line, yielded_debug_line.
    simpl. split_and!; done || lia.
  - intros [= <- <- <-]. simpl. split_and!; done || lia.
Qed.

Lemma gen_for_records_tally (stream : list record) (self self' : KeemuBaseMixin)
    (trace : list event) (result : res bool) :
  gen_for records_body stream self = (trace, self', result) →
  summaries trace = [] ∧
  match result with
  | Ok _ =>
      record_count self' =
        record_count self + Z.of_nat (List.length (outputs trace)) ∧
      insert_count self' =
        insert_count self + Z.of_nat (List.length (yielded trace))
  | Raise _ =>
      record_count self' =
        record_count self + Z.of_nat (List.length (outputs trace)) + 1 ∧
      insert_count self + Z.of_nat (List.length (yielded trace)) ≤ insert_count self'
        ≤ insert_count self + Z.of_nat (List.length (yielded trace)) + 1
  end.
Proof.
  revert self self' trace result.
  induction stream as [|r stream IH]; intros self self' trace result.
  - intros [= <- <- <-]. simpl. split_and!; done || lia.
  - rewrite gen_for_cons.
    destruct (records_body r self) as [[trace1 self1] result1] eqn:Hbody.
    apply records_body_counts in Hbody as (Hsum & Hseen & Hres).
    destruct result1 as [[|]|e].
    + intros [= <- <- <-]. destruct Hres as [Hout Hins]. split; [done|]. lia.
    + destruct (gen_for records_body stream self1) as [[trace2 self2] result2] eqn:Hrest.
      intros [= <- <- <-]. apply IH in Hrest as [Hsum2 Hres2].
      destruct Hres as [Hout Hins].
      rewrite summaries_app, outputs_app, yielded_app, !length_app, Hsum, Hsum2.
      split; [done|]. destruct result2; lia.
    + intros [= <- <- <-]. destruct Hres as [-> Hins]. simpl. split; [done|]. lia.
Qed.

(** X1: the two counters after a run of [records].  The count of seen
    records has grown by the number of rows and deletions of the run, and
    by one more when the run raised; the count of inserted records has
    grown by the number of rows, and by at most one more when the run
    raised; so the inserted records never outnumber the seen ones. *)
Theorem records_counters (stream : list record) (self self' : KeemuBaseMixin)
    (trace : list event) (result : res unit) :
  records stream self = (trace, self', result) →
  (result = Ok tt →
     record_count self' =
       record_count self + Z.of_nat (List.length (outputs trace)) ∧
     insert_count self' =
       insert_count self + Z.of_nat (List.length (yielded trace))) ∧
  (∀ e, result = Raise e →
     record_count self' =
       record_count self + Z.of_nat (List.length (outputs trace)) + 1 ∧
     insert_count self + Z.of_nat (List.length (yielded trace)) ≤ insert_count self'
       ≤ insert_count self + Z.of_nat (List.length (yielded trace)) + 1) ∧
  (insert_count self ≤ record_count self →
   insert_count self' ≤ record_count self').
Proof.
  rewrite records_unfold.
  destruct (gen_for records_body stream self) as [[trace0 self0] result0] eqn:Hloop.
  apply gen_for_records_tally in Hloop as [_ Htally].
  pose proof (yielded_le_outputs trace0) as Hle.
  destruct result0 as [stop|e]; intros [= <- <- <-].
  - rewrite outputs_log_info, yielded_app. simpl. rewrite app_nil_r.
    split_and!; [done | done | lia].
  - split_and!; [done | by intros e' [= <-] | lia].
Qed.

Lemma records_counters_witness :
  record_count (records [specimen; draft; unpublished] (catalogue_task None)).1.2 = 3 ∧
  insert_count (records [specimen; draft; unpublished] (catalogue_task None)).1.2 = 1 ∧
  record_count (records [draft; nameless; specimen] (catalogue_task None)).1.2 = 2 ∧
  insert_count (records [draft; nameless; specimen] (catalogue_task None)).1.2 ≤
  record_count (records [draft; nameless; specimen] (catalogue_task None)).1.2.
Proof.
  pose proof (records_counters [specimen; draft; unpublished] (catalogue_task None) _ _ _
                (triple_eta _)) as (Hok & _ & _).
  pose proof (records_counters [draft; nameless; specimen] (catalogue_task None) _ _ _
                (triple_eta _)) as (_ & Hraise & Hle).
  split_and!.
  - apply (Hok eq_refl).
  - apply (Hok eq_refl).
  - apply (Hraise (AttributeError "irn") eq_refl).
  - apply Hle. done.
Defined.

(** X2: the summary line of [records].  A run that ends normally writes
    exactly one summary line, as the last entry of its trace, and the line
    reports the final count of inserted records and the table of the
    task; a run that raises writes none. *)
Theorem records_summary (stream : list record) (self self' : KeemuBaseMixin)
    (trace : list event) (result : res unit) :
  records stream self = (trace, self', result) →
  (result = Ok tt →
     summaries trace = [LogInfo (insert_count self') (table (cls self))] ∧
     last trace = Some (LogInfo (insert_count self') (table (cls self)))) ∧
  (∀ e, result = Raise e → summaries trace = []).
Proof.
  rewrite records_unfold.
  destruct (gen_for records_body stream self) as [[trace0 self0] result0] eqn:Hloop.
  destruct (gen_for_records_counts _ _ _ _ _ Hloop) as (seen & inserted & ->).
  apply gen_for_records_tally in Hloop as [Hnone _].
  destruct result0 as [stop|e]; intros [= <- <- <-].
  - split; [intros _ | done]. rewrite summaries_app, Hnone, last_snoc. done.
  - split; [done|]. by intros e' _.
Qed.

Lemma records_summary_witness :
  summaries (records [specimen; draft] (catalogue_task None)).1.1 =
    [LogInfo 1 "catalogue"] ∧
  summaries (records [nameless; specimen] (catalogue_task None)).1.1 = [].
Proof.
  split.
  - apply (proj1 (records_summary [specimen; draft] (catalogue_task None) _ _ _
                    (triple_eta _)) eq_refl).
  - apply (proj2 (records_summary [nameless; specimen] (catalogue_task None) _ _ _
                    (triple_eta _)) (AttributeError "irn") eq_refl).
Defined.

(** X3: a limit that the count of seen records has already reached, which
    includes every negative limit, lets one more record through: the loop
    is left after its first record, whatever follows it in the stream. *)
Theorem limit_already_reached (self : KeemuBaseMixin) (n : Z) (r : record)
    (rest : list record) :
  limit self = Some n → n ≠ 0 → n ≤ record_count self + 1 →
  records (r :: rest) self = records [r] self.
Proof.
  intros Hlimit Hn Hle. rewrite !records_unfold, !gen_for_cons.
  destruct (records_body r self) as [[trace1 self1] result1] eqn:Hbody.
  destruct (records_body_result _ _ _ _ _ Hbody) as [[inserted ->] Hres].
  destruct result1 as [[|]|e]; [done| |done].
  destruct Hres as [Hstop _].
  rewrite limit_reached_with_counts, Hlimit in Hstop.
  symmetry in Hstop. apply andb_false_iff in Hstop as [Hz|Hgt].
  - apply negb_false_iff in Hz. lia.
  - lia.
Qed.

Lemma limit_already_reached_witness :
  records [specimen; draft; unpublished] (catalogue_task (Some (-1))) =
  ([Yield specimen_row; LogInfo 1 "catalogue"],
   with_counts 1 1 (catalogue_task (Some (-1))), Ok tt).
Proof.
  rewrite (limit_already_reached (catalogue_task (Some (-1))) (-1) specimen
             [draft; unpublished]); [reflexivity | reflexivity | lia | simpl; lia].
Defined.

Lemma gen_for_records_break (stream : list record) (self self' : KeemuBaseMixin)
    (trace : list event) :
  gen_for records_body stream self = (trace, self', Ok true) →
  limit_reached self' = true.
Proof.
  revert self trace. induction stream as [|r stream IH]; intros self trace.
  - intros [=].
  - rewrite gen_for_cons.
    destruct (records_body r self) as [[trace1 self1] result1] eqn:Hbody.
    destruct (records_body_result _ _ _ _ _ Hbody) as [_ Hres].
    destruct result1 as [[|]|e]; [| |done].
    + intros [= <- <-]. by destruct Hres as [<- _].
    + destruct (gen_for records_body stream self1) as [[trace2 self2] result2] eqn:Hrest.
      intros [= <- <- ->]. by eapply IH.
Qed.

(** X4: two runs of [records] on the same instance.  When the first run
    ends normally without having reached the limit, running [records] on
    a second stream afterwards ends as one run on the two streams joined
    does: the same instance, the same result, and the rows and deletions
    of the first run followed by those of the second. *)
Theorem records_twice (s1 s2 : list record) (self self1 self2 : KeemuBaseMixin)
    (t1 t2 : list event) (result : res unit) :
  records s1 self = (t1, self1, Ok tt) →
  limit_reached self1 = false →
  records s2 self1 = (t2, self2, result) →
  ∃ trace,
    records (s1 ++ s2) self = (trace, self2, result) ∧
    outputs trace = outputs t1 ++ outputs t2 ∧
    yielded trace = yielded t1 ++ yielded t2.
Proof.
  rewrite !records_unfold, gen_for_app.
  destruct (gen_for records_body s1 self) as [[trace1 self1'] result1] eqn:Hfirst.
  destruct result1 as [stop|e]; [|done]. intros [= <- <-] Hlimit.
  destruct stop.
  { apply gen_for_records_break in Hfirst. congruence. }
  destruct (gen_for records_body s2 self1') as [[trace2 self2'] result2].
  destruct result2 as [stop2|e]; intros [= <- <- <-]; eexists; (split; [done|]).
  - rewrite !outputs_app, !yielded_app.
    change (outputs [LogInfo ?n ?name]) with (@nil event).
    change (yielded [LogInfo ?n ?name]) with (@nil (gmap string value)).
    by rewrite !app_nil_r.
  - rewrite !outputs_app, !yielded_app.
    change (outputs [LogInfo ?n ?name]) with (@nil event).
    change (yielded [LogInfo ?n ?name]) with (@nil (gmap string value)).
    by rewrite !app_nil_r.
Qed.

Lemma records_twice_witness :
  ∃ trace,
    records ([specimen; draft] ++ [unpublished; annotated]) (catalogue_task None) =
      (trace, with_counts 4 2 (catalogue_task None), Ok tt) ∧
    outputs trace =
      outputs (records [specimen; draft] (catalogue_task None)).1.1 ++
      outputs (records [unpublished; annotated]
                 (with_counts 2 1 (catalogue_task None))).1.1 ∧
    yielded trace =
      yielded (records [specimen; draft] (catalogue_task None)).1.1 ++
      yielded (records [unpublished; annotated]
                 (with_counts 2 1 (catalogue_task None))).1.1.
Proof.
  apply (records_twice [specimen; draft] [unpublished; annotated]
           (catalogue_task None) (with_counts 2 1 (catalogue_task None))); reflexivity.
Defined.

Lemma debug_counts_round (ev : event) (self : KeemuBaseMixin) :
  is_output ev = true →
  debug_counts (ev :: debug_line self) =
  if limit_reached self then []
  else if record_count self mod 1000 =? 0 then [record_count self] else [].
Proof.
  intros Hev. unfold debug_line.
  destruct (limit_reached self); [by destruct ev|].
  destruct (record_count self mod 1000 =? 0); by destruct ev.
Qed.

Lemma record_count_with_counts (seen inserted : Z) (self : KeemuBaseMixin) :
  record_count (with_counts seen inserted self) = seen.
Proof. done. Qed.

Lemma takes_path_output (self : KeemuBaseMixin) (r : record) (ev : event) :
  takes_path self r ev → is_output ev = true.
Proof. by intros [(_ & row & _ & ->) | (_ & ->)]. Qed.

Lemma gen_for_debug_sound (stream : list record) (self self' : KeemuBaseMixin)
    (trace : list event) (result : res bool) (n : Z) :
  gen_for records_body stream self = (trace, self', result) →
  n ∈ debug_counts trace →
  n mod 1000 = 0 ∧ record_count self < n ≤ record_count self' ∧
  ∀ m, limit self = Some m → m ≠ 0 → n < m.
Proof.
  revert self self' trace result.
  induction stream as [|r stream IH]; intros self self' trace result.
  - intros [= <- <- <-] Hin. by apply elem_of_nil in Hin.
  - rewrite gen_for_cons.
    destruct (records_body r self) as [[trace1 self1] result1] eqn:Hbody.
    destruct (records_body_result _ _ _ _ _ Hbody) as [[inserted ->] Hres].
    assert (∀ m, n ∈ debug_counts trace1 →
              n = record_count self + 1 ∧ n mod 1000 = 0 ∧
              (limit self = Some m → m ≠ 0 → n < m)) as Hround.
    { intros m. destruct result1 as [stop|e].
      - destruct Hres as (_ & ev & Hpath & ->).
        rewrite (debug_counts_round _ _ (takes_path_output _ _ _ Hpath)).
        rewrite limit_reached_with_counts, !record_count_with_counts.
        destruct (limit self) as [k|] eqn:Hlimit.
        + destruct (negb (k =? 0) && (k <=? record_count self + 1)) eqn:Hreached;
            [intros Hnil; by apply elem_of_nil in Hnil|].
          destruct ((record_count self + 1) mod 1000 =? 0) eqn:Hmod;
            [|intros Hnil; by apply elem_of_nil in Hnil].
          intros ->%list_elem_of_singleton. split; [done|]. split; [lia|].
          intros [= ->] Hm. apply andb_false_iff in Hreached as [Hz|Hgt]; [|lia].
          apply negb_false_iff in Hz. lia.
        + destruct ((record_count self + 1) mod 1000 =? 0) eqn:Hmod;
            [|intros Hnil; by apply elem_of_nil in Hnil].
          intros ->%list_elem_of_singleton. split; [done|]. split; [lia | done].
      - destruct Hres as [-> _]. intros Hnil; by apply elem_of_nil in Hnil. }
    destruct result1 as [[|]|e].
    + intros [= <- <- <-] Hin. pose proof (Hround 0 Hin) as (Hn & Hmod & _).
      split; [done|]. split; [rewrite record_count_with_counts; lia|].
      intros m Hm Hne. by apply (Hround m Hin).
    + destruct (gen_for records_body stream _) as [[trace2 self2] result2] eqn:Hrest.
      intros [= <- <- <-]. rewrite debug_counts_app, elem_of_app.
      pose proof (gen_for_records_tally _ _ _ _ _ Hrest) as [_ Hgrow].
      assert (record_count self + 1 ≤ record_count self2) as Hle
        by (destruct result2; simpl in Hgrow; lia).
      intros [Hin | Hin].
      * pose proof (Hround 0 Hin) as (Hn & Hmod & _).
        split; [done|]. split; [lia|]. intros m Hm Hne. by apply (Hround m Hin).
      * destruct (IH _ _ _ _ Hrest Hin) as (Hmod & Hrange & Hcap).
        simpl in Hrange. split; [done|]. split; [lia | exact Hcap].
    + intros [= <- <- <-] Hin. pose proof (Hround 0 Hin) as (Hn & Hmod & _).
      split; [done|]. split; [rewrite record_count_with_counts; lia|].
      intros m Hm Hne. by apply (Hround m Hin).
Qed.

Lemma gen_for_debug_complete (stream : list record) (self : KeemuBaseMixin) :
  limit self = None ∨ limit self = Some 0 →
  Forall (processable self) stream →
  debug_counts (gen_for records_body stream self).1.1 =
  filter (λ n, n mod 1000 = 0)
    (seqZ (record_count self + 1) (Z.of_nat (List.length stream))).
Proof.
  intros Hlimit. revert self Hlimit.
  induction stream as [|r stream IH]; intros self Hlimit Hall; [done|].
  apply Forall_cons in Hall as [[ev Hpath] Hall].
  destruct (records_body_path _ _ _ Hpath) as [inserted Hbody]. cbv zeta in Hbody.
  rewrite gen_for_cons, Hbody, limit_reached_with_counts.
  assert (match limit self with
          | Some n => negb (n =? 0) && (n <=? record_count self + 1)
          | None => false
          end = false) as Hnot by (by destruct Hlimit as [-> | ->]).
  rewrite Hnot.
  specialize (IH (with_counts (record_count self + 1) inserted self) Hlimit Hall).
  destruct (gen_for records_body stream _) as [[trace2 self2] result2].
  simpl in IH. simpl fst.
  rewrite app_comm_cons, debug_counts_app.
  rewrite (debug_counts_round _ _ (takes_path_output _ _ _ Hpath)).
  rewrite limit_reached_with_counts, record_count_with_counts, Hnot, IH.
  rewrite (seqZ_cons (record_count self + 1)) by (simpl; lia).
  rewrite filter_cons.
  replace (Z.pred (Z.of_nat (List.length (r :: stream))))
    with (Z.of_nat (List.length stream)) by (simpl; lia).
  replace (Z.succ (record_count self + 1)) with (record_count self + 1 + 1) by lia.
  simpl record_count.
  destruct ((record_count self + 1) mod 1000 =? 0) eqn:Hmod.
  - apply Z.eqb_eq in Hmod. by rewrite decide_True by done.
  - apply Z.eqb_neq in Hmod. by rewrite decide_False by done.
Qed.

(** X5: the debug lines of [records].  A debug line reports a count of
    seen records that is a multiple of 1000, reached during the run and
    below the limit when there is one; and in a run without limit over
    records that can be processed there is one debug line for every
    multiple of 1000 that the count goes through, in order. *)
Theorem records_debug_lines (stream : list record) (self self' : KeemuBaseMixin)
    (trace : list event) (result : res unit) :
  records stream self = (trace, self', result) →
  (∀ n, n ∈ debug_counts trace →
     n mod 1000 = 0 ∧ record_count self < n ≤ record_count self' ∧
     ∀ m, limit self = Some m → m ≠ 0 → n < m) ∧
  (limit self = None ∨ limit self = Some 0 →
   Forall (processable self) stream →
   debug_counts trace =
   filter (λ n, n mod 1000 = 0)
     (seqZ (record_count self + 1) (Z.of_nat (List.length stream)))).
Proof.
  rewrite records_unfold. intros Hrun. split.
  - intros n Hin.
    destruct (gen_for records_body stream self) as [[trace0 self0] result0] eqn:Hloop.
    destruct result0; injection Hrun as <- <- <-;
      apply (gen_for_debug_sound _ _ _ _ _ n Hloop); [|done].
    rewrite debug_counts_app in Hin. simpl in Hin. by rewrite app_nil_r in Hin.
  - intros Hlimit Hall.
    pose proof (gen_for_debug_complete stream self Hlimit Hall) as Hcounts.
    destruct (gen_for records_body stream self) as [[trace0 self0] result0].
    simpl in Hcounts.
    destruct result0; injection Hrun as <- <- <-; [|done].
    rewrite debug_counts_app. simpl. by rewrite app_nil_r.
Qed.

Lemma records_debug_lines_witness :
  debug_counts
    (records [draft; unpublished] (with_counts 999 0 (catalogue_task None))).1.1 =
  [1000] ∧
  1000 mod 1000 = 0.
Proof.
  pose proof (records_debug_lines [draft; unpublished]
                (with_counts 999 0 (catalogue_task None)) _ _ _ (triple_eta _))
    as [Hsound Hcomplete].
  split.
  - rewrite Hcomplete; [reflexivity | by left |].
    repeat constructor.
    + eexists. apply (draft_path None).
    + eexists. apply (unpublished_path None).
  - apply (Hsound 1000). rewrite Hcomplete; [by left | by left |].
    repeat constructor.
    + eexists. apply (draft_path None).
    + eexists. apply (unpublished_path None).
Defined.

(** ** More on the filter gate *)

Lemma check_filters_first_raise (r : record) (field : string)
    (earlier later : list (filter_operator * value))
    (pair : filter_operator * value) (e : exn) :
  Forall (passes r field) earlier →
  pair.1 (getattr_default r field PyNone) pair.2 = Raise e →
  check_filters (getattr_default r field PyNone) (earlier ++ pair :: later) = Raise e.
Proof.
  intros Hearlier Hraise.
  induction Hearlier as [|[op cmp] earlier (v' & Hv' & Htrue) _ IH]; simpl.
  - destruct pair as [op cmp]. simpl in Hraise. by rewrite Hraise.
  - simpl in Hv'. rewrite Hv'. simpl. by rewrite Htrue.
Qed.

Lemma apply_filter_items_first_raise (r : record)
    (before after : list (string * list (filter_operator * value)))
    (field : string) (earlier later : list (filter_operator * value))
    (pair : filter_operator * value) (e : exn) :
  Forall (rule_passes r) before →
  Forall (passes r field) earlier →
  pair.1 (getattr_default r field PyNone) pair.2 = Raise e →
  apply_filter_items r (before ++ (field, earlier ++ pair :: later) :: after) = Raise e.
Proof.
  intros Hbefore Hearlier Hraise.
  induction Hbefore as [|[field' pairs] before Hrule _ IH]; simpl.
  - by rewrite (check_filters_first_raise _ _ _ _ _ e).
  - apply check_filters_true in Hrule. simpl in Hrule. by rewrite Hrule.
Qed.

(** The pairs of a rule, up to the first one that does not pass. *)
Lemma check_filters_first (r : record) (field : string)
    (pairs : list (filter_operator * value)) :
  Forall (passes r field) pairs ∨
  ∃ earlier pair later,
    pairs = earlier ++ pair :: later ∧
    Forall (passes r field) earlier ∧
    (fails r field pair ∨
     ∃ e, pair.1 (getattr_default r field PyNone) pair.2 = Raise e).
Proof.
  induction pairs as [|[op cmp] pairs IH]; [left; constructor|].
  destruct (op (getattr_default r field PyNone) cmp) as [v|e] eqn:Hop.
  - destruct (truthy v) eqn:Hv.
    + assert (passes r field (op, cmp)) as Hpass by (by exists v).
      destruct IH as [Hall | (earlier & pair & later & -> & Hearlier & Hpair)].
      * left. by constructor.
      * right. exists ((op, cmp) :: earlier), pair, later.
        split; [done|]. split; [by constructor | done].
    + right. exists [], (op, cmp), pairs. split; [done|]. split; [constructor|].
      left. by exists v.
  - right. exists [], (op, cmp), pairs. split; [done|]. split; [constructor|].
    right. by exists e.
Qed.

(** The rules of a module, up to the first pair that does not pass. *)
Lemma apply_filter_items_first (r : record)
    (items : list (string * list (filter_operator * value))) :
  Forall (rule_passes r) items ∨
  ∃ before field earlier pair later after,
    items = before ++ (field, earlier ++ pair :: later) :: after ∧
    Forall (rule_passes r) before ∧
    Forall (passes r field) earlier ∧
    (fails r field pair ∨
     ∃ e, pair.1 (getattr_default r field PyNone) pair.2 = Raise e).
Proof.
  induction items as [|[field pairs] items IH]; [left; constructor|].
  destruct (check_filters_first r field pairs)
    as [Hrule | (earlier & pair & later & -> & Hearlier & Hpair)].
  - destruct IH as [Hall | (before & f & earlier & pair & later & after & -> & H)].
    + left. by constructor.
    + right. exists ((field, pairs) :: before), f, earlier, pair, later, after.
      split; [done|]. destruct H as (Hbefore & H). split; [by constructor | done].
  - right. exists [], field, earlier, pair, later, items.
    split; [done|]. split; [constructor | done].
Qed.

(** X6: the first pair that does not pass decides [_apply_filters]: the
    result is [False] exactly when the operator of that pair returns a
    false value, and the call raises [e] exactly when that operator
    raises [e]; the pairs after it play no part. *)
Theorem filter_gate_outcome (self : KeemuBaseMixin) (r : record) :
  (_apply_filters self r = Ok false ↔
   ∃ before field earlier pair later after,
     filters (cls self) = before ++ (field, earlier ++ pair :: later) :: after ∧
     Forall (rule_passes r) before ∧
     Forall (passes r field) earlier ∧
     fails r field pair) ∧
  (∀ e, _apply_filters self r = Raise e ↔
   ∃ before field earlier pair later after,
     filters (cls self) = before ++ (field, earlier ++ pair :: later) :: after ∧
     Forall (rule_passes r) before ∧
     Forall (passes r field) earlier ∧
     pair.1 (getattr_default r field PyNone) pair.2 = Raise e).
Proof.
  unfold _apply_filters.
  assert (∀ before field earlier pair later after,
            filters (cls self) =
              before ++ (field, earlier ++ pair :: later) :: after →
            Forall (rule_passes r) before → Forall (passes r field) earlier →
            (fails r field pair → apply_filter_items r (filters (cls self)) = Ok false) ∧
            (∀ e, pair.1 (getattr_default r field PyNone) pair.2 = Raise e →
                  apply_filter_items r (filters (cls self)) = Raise e)) as Hdecides.
  { intros before field earlier pair later after -> Hbefore Hearlier. split.
    - by apply apply_filter_items_first_failure.
    - intros e. by apply apply_filter_items_first_raise. }
  destruct (apply_filter_items_first r (filters (cls self)))
    as [Hall | (before & field & earlier & pair & later & after & Heq & Hbefore
                & Hearlier & Hpair)].
  - apply apply_filter_items_true in Hall. rewrite Hall. split; [|intros e].
    + split; [done|].
      intros (b & f & ea & p & l & a & Heq & Hb & He & Hf).
      rewrite <- (proj1 (Hdecides _ _ _ _ _ _ Heq Hb He) Hf). done.
    + split; [done|].
      intros (b & f & ea & p & l & a & Heq & Hb & He & Hf).
      rewrite <- (proj2 (Hdecides _ _ _ _ _ _ Heq Hb He) e Hf). done.
  - destruct (Hdecides _ _ _ _ _ _ Heq Hbefore Hearlier) as [Hfalse Hraise].
    split; [|intros e].
    + split.
      * intros Hres. destruct Hpair as [Hfails | [e He]].
        -- by exists before, field, earlier, pair, later, after.
        -- rewrite (Hraise e He) in Hres. done.
      * intros (b & f & ea & p & l & a & Heq' & Hb & He & Hf).
        apply (proj1 (Hdecides _ _ _ _ _ _ Heq' Hb He) Hf).
    + split.
      * intros Hres. destruct Hpair as [Hfails | [e' He']].
        -- rewrite (Hfalse Hfails) in Hres. done.
        -- rewrite (Hraise e' He') in Hres. injection Hres as ->.
           by exists before, field, earlier, pair, later, after.
      * intros (b & f & ea & p & l & a & Heq' & Hb & He & Hf).
        apply (proj2 (Hdecides _ _ _ _ _ _ Heq' Hb He) e Hf).
Qed.

Lemma filter_gate_outcome_witness :
  _apply_filters (guarded_task None) draft = Ok false ∧
  _apply_filters (guarded_task None) specimen =
    Raise (OperatorError "unsupported operand").
Proof.
  split.
  - apply (proj1 (filter_gate_outcome (guarded_task None) draft)).
    exists [], "status", [], (equals, PyStr "verified"), [(unusable, PyNone)],
      [("kind", [(unusable, PyNone)])].
    split; [reflexivity|]. split; [constructor|]. split; [constructor|].
    exists (PyBool false). split; reflexivity.
  - apply (proj2 (filter_gate_outcome (guarded_task None) specimen)).
    exists [], "status", [(equals, PyStr "verified")], (unusable, PyNone), [],
      [("kind", [(unusable, PyNone)])].
    split; [reflexivity|]. split; [constructor|]. split; [|reflexivity].
    repeat constructor. exists (PyBool true). split; reflexivity.
Defined.

Lemma check_filters_total (r : record) (field : string)
    (pairs : list (filter_operator * value)) :
  (∀ pair, pair ∈ pairs →
     ∃ v, pair.1 (getattr_default r field PyNone) pair.2 = Ok v) →
  ∃ b, check_filters (getattr_default r field PyNone) pairs = Ok b.
Proof.
  induction pairs as [|[op cmp] pairs IH]; intros Hok; simpl; [by eexists|].
  destruct (Hok (op, cmp)) as [v Hv]; [left|]. simpl in Hv. rewrite Hv. simpl.
  destruct (truthy v); simpl; [|by eexists].
  apply IH. intros pair Hin. apply Hok. by right.
Qed.

Lemma apply_filter_items_total (r : record)
    (items : list (string * list (filter_operator * value))) :
  (∀ field pairs pair, (field, pairs) ∈ items → pair ∈ pairs →
     ∃ v, pair.1 (getattr_default r field PyNone) pair.2 = Ok v) →
  ∃ b, apply_filter_items r items = Ok b.
Proof.
  induction items as [|[field pairs] items IH]; intros Hok; simpl; [by eexists|].
  destruct (check_filters_total r field pairs) as [b Hb].
  { intros pair Hin. apply (Hok field pairs); [left | done]. }
  rewrite Hb. simpl. destruct b; [|by eexists].
  apply IH. intros f ps p Hin. apply Hok. by right.
Qed.

(** X7: the order of the items of [filters] does not matter when no
    operator raises on the record: two tasks whose filters hold the same
    rules in a different order give the same result. *)
Theorem filter_order_irrelevant (self1 self2 : KeemuBaseMixin) (r : record) :
  filters (cls self1) ≡ₚ filters (cls self2) →
  (∀ field pairs pair, (field, pairs) ∈ filters (cls self1) → pair ∈ pairs →
     ∃ v, pair.1 (getattr_default r field PyNone) pair.2 = Ok v) →
  _apply_filters self1 r = _apply_filters self2 r.
Proof.
  intros Hperm Hok. unfold _apply_filters.
  destruct (apply_filter_items_total r (filters (cls self1)) Hok) as [b1 H1].
  destruct (apply_filter_items_total r (filters (cls self2))) as [b2 H2].
  { intros field pairs pair Hin. apply Hok. by rewrite Hperm. }
  rewrite H1, H2. f_equal.
  pose proof (apply_filter_items_true r (filters (cls self1))) as Hiff1.
  pose proof (apply_filter_items_true r (filters (cls self2))) as Hiff2.
  rewrite H1 in Hiff1. rewrite H2, <- Hperm, <- Hiff1 in Hiff2.
  destruct b1, b2; intuition congruence.
Qed.

Lemma filter_order_irrelevant_witness :
  _apply_filters (filtered_task [status_rule; kind_rule]) specimen =
  _apply_filters (filtered_task [kind_rule; status_rule]) specimen.
Proof.
  apply filter_order_irrelevant.
  - apply Permutation_swap.
  - intros field pairs pair Hin Hpair.
    repeat (apply elem_of_cons in Hin as [[= -> ->] | Hin];
            [apply list_elem_of_singleton in Hpair as ->; by eexists|]).
    by apply elem_of_nil in Hin.
Defined.

(** ** More on the transformer *)

Lemma registry_task_init :
  __init__ joined_task_id registry 20240101 None = Ok registry_task.
Proof. reflexivity. Qed.

Lemma record_to_dict_cases (self : KeemuBaseMixin) (r : record) :
  (r !! "irn" = None ∧ record_to_dict self r = Raise (AttributeError "irn")) ∨
  (∃ irn, r !! "irn" = Some irn ∧
     record_to_dict self r =
     Ok (fold_left (λ d field,
           <[field.2 := stored_value self field.2
                          (getattr_default r field.1 PyNone)]> d)
         (_metadata_fields self)
         (<["import_date" := PyInt (date self)]>
            (<["properties" := PyDict (get_properties self r)]>
               (<["irn" := irn]> ∅))))).
Proof.
  destruct (r !! "irn") as [irn|] eqn:Hirn.
  - right. exists irn. split; [done|]. by apply record_to_dict_Ok.
  - left. split; [done|]. by apply record_to_dict_no_irn.
Qed.

(** X8: [record_to_dict] fails in one way only: it raises
    [AttributeError] for [irn] exactly when the record has no [irn], and
    returns a row for every record that has one; no lookup in the row
    under construction fails. *)
Theorem record_to_dict_errors (self : KeemuBaseMixin) (r : record) :
  (∀ e, record_to_dict self r = Raise e ↔
        r !! "irn" = None ∧ e = AttributeError "irn") ∧
  ((∃ row, record_to_dict self r = Ok row) ↔ is_Some (r !! "irn")).
Proof.
  destruct (record_to_dict_cases self r) as [[Hirn ->] | (irn & Hirn & ->)];
    rewrite Hirn; split.
  - intros e. split; [by intros [= <-] | by intros [_ ->]].
  - split; [by intros [row [=]] | by intros [v [=]]].
  - intros e. split; [done | by intros [[=] _]].
  - split; [by eexists | by eexists].
Qed.

Lemma record_to_dict_errors_witness :
  record_to_dict (catalogue_task None) nameless = Raise (AttributeError "irn") ∧
  ∃ row, record_to_dict (catalogue_task None) specimen = Ok row.
Proof.
  split.
  - by apply (proj1 (record_to_dict_errors (catalogue_task None) nameless)).
  - apply (proj2 (record_to_dict_errors (catalogue_task None) specimen)).
    by eexists.
Defined.

Lemma fold_insert_is_Some {V} (f : string * string → V)
    (fields : list (string * string)) (d : gmap string V) (key : string) :
  is_Some (fold_left (λ d field, <[field.2 := f field]> d) fields d !! key) ↔
  is_Some (d !! key) ∨ key ∈ fields.*2.
Proof.
  revert d. induction fields as [|field fields IH]; intros d; simpl.
  - rewrite elem_of_nil. tauto.
  - rewrite IH, lookup_insert_is_Some, elem_of_cons.
    destruct (decide (field.2 = key)) as [->|Hne]; intuition congruence.
Qed.

(** X9: the keys of a row are [irn], [properties], [import_date] and the
    aliases of the metadata fields, whatever the record holds; the alias
    of a property field is no key of the row unless it is one of these. *)
Theorem row_keys (self : KeemuBaseMixin) (r : record) (row : gmap string value)
    (key : string) :
  record_to_dict self r = Ok row →
  is_Some (row !! key) ↔
  key ∈ ["irn"; "properties"; "import_date"] ∨ key ∈ (_metadata_fields self).*2.
Proof.
  destruct (record_to_dict_cases self r) as [[_ ->] | (irn & _ & ->)]; [done|].
  intros [= <-]. rewrite fold_insert_is_Some, !lookup_insert_is_Some, lookup_empty.
  rewrite !elem_of_cons, elem_of_nil.
  assert (¬ is_Some (@None value)) as Hnone by (by intros [? ?]).
  destruct (decide ("import_date" = key)), (decide ("properties" = key)),
    (decide ("irn" = key)); intuition congruence.
Qed.

Lemma row_keys_witness :
  is_Some (specimen_row !! "kind") ∧
  ¬ is_Some (specimen_row !! "collector_note").
Proof.
  pose proof (row_keys (catalogue_task None) specimen specimen_row) as Hkeys.
  split.
  - apply (Hkeys "kind" eq_refl). right. left.
  - intros Hsome. apply (Hkeys "collector_note" eq_refl) in Hsome as [Hin | Hin].
    + revert Hin. not_in_list.
    + revert Hin. not_in_list.
Defined.

(** X10: a column that is no array column holds the resolved value as it
    is.  For a record with an [irn] and the last metadata mapping of an
    alias that is no array field, the row holds under the alias the value
    of the source field, a list included, and [None] when the field is
    absent. *)
Theorem scalar_column_value (self : KeemuBaseMixin) (r : record)
    (row : gmap string value) (before after : list (string * string))
    (ke_field alias : string) :
  record_to_dict self r = Ok row →
  _metadata_fields self = before ++ (ke_field, alias) :: after →
  alias ∉ after.*2 →
  alias ∉ _array_fields self →
  row !! alias = Some (getattr_default r ke_field PyNone) ∧
  (r !! ke_field = None → row !! alias = Some PyNone).
Proof.
  destruct (record_to_dict_cases self r) as [[_ ->] | (irn & _ & ->)]; [done|].
  intros [= <-] Hfields Hlast Hscalar. rewrite Hfields.
  rewrite (fold_insert_last
    (λ field, stored_value self field.2 (getattr_default r field.1 PyNone))
    _ _ (ke_field, alias)) by done.
  simpl. unfold stored_value. rewrite bool_decide_eq_false_2 by done.
  rewrite andb_false_r. simpl. split; [done|].
  intros Hnone. unfold getattr_default. by rewrite Hnone.
Qed.

Lemma scalar_column_value_witness :
  specimen_row !! "kind" = Some PyNone.
Proof.
  apply (scalar_column_value (catalogue_task None) specimen specimen_row []
           [("LocCurrentLocation", "locations"); ("MulMultiMediaRef", "multimedia")]
           "ColKind" "kind").
  - reflexivity.
  - reflexivity.
  - not_in_list.
  - not_in_list.
  - reflexivity.
Defined.

(** X11: the identity and the batch of a row.  Unless a metadata field
    is aliased [irn], the row holds the [irn] of the record as the record
    has it; unless one is aliased [import_date], the row holds the date
    of the task. *)
Theorem row_identity (self : KeemuBaseMixin) (r : record)
    (row : gmap string value) :
  record_to_dict self r = Ok row →
  ("irn" ∉ (_metadata_fields self).*2 → row !! "irn" = r !! "irn") ∧
  ("import_date" ∉ (_metadata_fields self).*2 →
   row !! "import_date" = Some (PyInt (date self))).
Proof.
  destruct (record_to_dict_cases self r) as [[_ ->] | (irn & Hirn & ->)]; [done|].
  intros [= <-]. split; intros Hfree; rewrite fold_insert_other by done.
  - by rewrite !lookup_insert_ne, lookup_insert_eq by done.
  - by rewrite lookup_insert_eq.
Qed.

Lemma row_identity_witness :
  specimen_row !! "irn" = Some (PyInt 1) ∧
  specimen_row !! "import_date" = Some (PyInt 20240101).
Proof.
  destruct (row_identity (catalogue_task None) specimen specimen_row eq_refl)
    as [Hirn Hdate].
  split.
  - apply Hirn. not_in_list.
  - apply Hdate. not_in_list.
Defined.

Lemma properties_fold_ext (r1 r2 : record) (fields : list (string * string))
    (d : gmap string value) :
  (∀ field, field ∈ fields → r1 !! field.1 = r2 !! field.1) →
  fold_left (λ d field,
      if truthy (getattr_default r1 field.1 PyNone)
      then <[field.2 := getattr_default r1 field.1 PyNone]> d
      else d) fields d =
  fold_left (λ d field,
      if truthy (getattr_default r2 field.1 PyNone)
      then <[field.2 := getattr_default r2 field.1 PyNone]> d
      else d) fields d.
Proof.
  revert d. induction fields as [|field fields IH]; intros d Hsame; simpl; [done|].
  assert (getattr_default r1 field.1 PyNone = getattr_default r2 field.1 PyNone)
    as -> by (unfold getattr_default; by rewrite (Hsame field) by left).
  apply IH. intros f Hin. apply Hsame. by right.
Qed.

Lemma metadata_fold_ext (self : KeemuBaseMixin) (r1 r2 : record)
    (fields : list (string * string)) (d : gmap string value) :
  (∀ field, field ∈ fields → r1 !! field.1 = r2 !! field.1) →
  fold_left (λ d field,
      <[field.2 := stored_value self field.2 (getattr_default r1 field.1 PyNone)]> d)
    fields d =
  fold_left (λ d field,
      <[field.2 := stored_value self field.2 (getattr_default r2 field.1 PyNone)]> d)
    fields d.
Proof.
  revert d. induction fields as [|field fields IH]; intros d Hsame; simpl; [done|].
  assert (getattr_default r1 field.1 PyNone = getattr_default r2 field.1 PyNone)
    as -> by (unfold getattr_default; by rewrite (Hsame field) by left).
  apply IH. intros f Hin. apply Hsame. by right.
Qed.

(** X12: a row depends on the record through its [irn] and the source
    fields of the declared field mappings only: two records that agree on
    these are transformed alike, whatever else they hold, the publication
    flag and the filtered fields included. *)
Theorem row_depends_on_mapped_fields (self : KeemuBaseMixin) (r1 r2 : record) :
  r1 !! "irn" = r2 !! "irn" →
  (∀ field, field ∈ _metadata_fields self ++ _property_fields self →
     r1 !! field.1 = r2 !! field.1) →
  record_to_dict self r1 = record_to_dict self r2.
Proof.
  intros Hirn Hsame.
  assert (get_properties self r1 = get_properties self r2) as Hprops.
  { unfold get_properties. apply properties_fold_ext.
    intros field Hin. apply Hsame, elem_of_app. by right. }
  destruct (record_to_dict_cases self r1) as [[H1 ->] | (irn & H1 & ->)];
    destruct (record_to_dict_cases self r2) as [[H2 ->] | (irn' & H2 & ->)];
    try congruence.
  rewrite Hirn, H2 in H1. injection H1 as ->. rewrite Hprops. f_equal.
  apply metadata_fold_ext. intros field Hin. apply Hsame, elem_of_app. by left.
Qed.

Lemma row_depends_on_mapped_fields_witness :
  record_to_dict registry_task catalogued_with_remark =
  record_to_dict registry_task catalogued.
Proof.
  apply row_depends_on_mapped_fields; [reflexivity|].
  intros field Hin.
  repeat (apply elem_of_cons in Hin as [-> | Hin]; [reflexivity|]).
  by apply elem_of_nil in Hin.
Defined.

Lemma properties_fold_skip (r : record) (fields : list (string * string))
    (d : gmap string value) (alias : string) :
  (∀ ke_field, (ke_field, alias) ∈ fields →
     truthy (getattr_default r ke_field PyNone) = false) →
  fold_left (λ d field,
      if truthy (getattr_default r field.1 PyNone)
      then <[field.2 := getattr_default r field.1 PyNone]> d
      else d) fields d !! alias = d !! alias.
Proof.
  revert d. induction fields as [|[ke k] fields IH]; intros d Hfalse; simpl; [done|].
  rewrite IH by (intros ke' Hin; apply Hfalse; by right).
  destruct (truthy (getattr_default r ke PyNone)) eqn:Htrue; [|done].
  rewrite lookup_insert_ne; [done|]. intros ->.
  rewrite Hfalse in Htrue by left. done.
Qed.

(** X13: when several property fields share an alias, [properties] holds
    the value of the last of them whose value is true: a later mapping
    with an absent or empty value does not erase it. *)
Theorem last_true_property_wins (self : KeemuBaseMixin) (r : record)
    (before after : list (string * string)) (ke_field alias : string) :
  _property_fields self = before ++ (ke_field, alias) :: after →
  truthy (getattr_default r ke_field PyNone) = true →
  (∀ later, (later, alias) ∈ after →
     truthy (getattr_default r later PyNone) = false) →
  get_properties self r !! alias = Some (getattr_default r ke_field PyNone).
Proof.
  intros Hfields Htrue Hlater. unfold get_properties.
  rewrite Hfields, fold_left_app. simpl. rewrite Htrue.
  rewrite properties_fold_skip by done. apply lookup_insert_eq.
Qed.

Lemma last_true_property_wins_witness :
  get_properties registry_task catalogued !! "catalogNumber" = Some (PyStr "BM 1").
Proof.
  apply (last_true_property_wins registry_task catalogued []
           [("RegRegistrationNumber", "catalogNumber")] "DarCatalogNumber").
  - reflexivity.
  - reflexivity.
  - intros later Hin. apply list_elem_of_singleton in Hin as [= ->]. reflexivity.
Defined.

(** ** More on column types and initialisation *)

Lemma res_map_Raise {A B} (f : A → res B) (l : list A) (e : exn) :
  res_map f l = Raise e → ∃ x, x ∈ l ∧ f x = Raise e.
Proof.
  induction l as [|x l IH]; simpl; [done|].
  destruct (f x) as [y|e'] eqn:Hfx; simpl.
  - destruct (res_map f l) as [ys|e'']; simpl; [done|].
    intros [= ->]. destruct (IH eq_refl) as (x' & Hin & Hx').
    exists x'. split; [by right | done].
  - intros [= ->]. exists x. split; [left | done].
Qed.

Lemma regex_match_starts (decl : string) :
  is_Some (regex_match decl) ↔ starts_with_capital decl.
Proof. apply regex_match_is_Some. Qed.

Lemma type_token_fixed (token : string) :
  type_token token → regex_match token = Some token.
Proof.
  intros [u Hne Hu | u Hne Hu]; unfold regex_match.
  - rewrite <- (append_empty_r u) at 1.
    rewrite (upper_run_app u "" Hu I). destruct u; [done|].
    simpl. by rewrite append_empty_r.
  - rewrite (upper_run_app u "[]" Hu eq_refl). by destruct u.
Qed.

(** X14: the column types that [get_column_types] returns.  The names
    and their order are those of the declared columns; each type is a
    run of capitals, or such a run followed by the array marker, and it is
    the beginning of its declaration, so that everything from the first
    space or bracket on, a constraint or a length, is dropped. *)
Theorem column_types_shape (c : KeemuClass) (types : list (string * string)) :
  get_column_types c = Ok types →
  types.*1 = (columns c).*1 ∧
  Forall2 (λ col ty, type_token ty.2 ∧ String.prefix ty.2 col.2 = true)
    (columns c) types.
Proof.
  intros Htypes%get_column_types_Ok. split.
  - revert Htypes. generalize (columns c). intros cols Htypes.
    induction Htypes as [|col ty cols tys [Hname _] _ IH]; [done|].
    by rewrite !fmap_cons, Hname, IH.
  - eapply Forall2_impl; [exact Htypes|].
    intros col ty [_ Hre]. by apply regex_match_longest in Hre as (? & ? & _).
Qed.

Lemma column_types_shape_witness :
  [ "irn"; "created"; "modified"; "deleted"; "properties"; "import_date"; "kind";
    "locations"; "multimedia"; "codes" ] = (columns catalogue).*1.
Proof.
  apply (column_types_shape catalogue
           [ ("irn", "INTEGER"); ("created", "TIMESTAMP"); ("modified", "TIMESTAMP");
             ("deleted", "TIMESTAMP"); ("properties", "JSONB");
             ("import_date", "INTEGER"); ("kind", "TEXT"); ("locations", "TEXT[]");
             ("multimedia", "INTEGER[]"); ("codes", "VARCHAR") ]).
  reflexivity.
Defined.

(** X15: [get_column_types] is idempotent: a module that declares the
    returned types as its column definitions gets the same types back. *)
Theorem column_types_idempotent (c : KeemuClass) (types : list (string * string)) :
  get_column_types c = Ok types →
  get_column_types (with_columns types c) = Ok types.
Proof.
  intros Htypes%get_column_types_Ok. unfold get_column_types. simpl.
  revert Htypes. generalize (columns c). intros cols Htypes.
  induction Htypes as [|col [name ty] cols tys [_ Hre] _ IH]; [done|].
  simpl in *. apply regex_match_longest in Hre as (Htoken & _).
  rewrite (type_token_fixed _ Htoken). simpl. by rewrite IH.
Qed.

Lemma column_types_idempotent_witness :
  get_column_types
    (with_columns
       [ ("irn", "INTEGER"); ("created", "TIMESTAMP"); ("modified", "TIMESTAMP");
         ("deleted", "TIMESTAMP"); ("properties", "JSONB");
         ("import_date", "INTEGER"); ("kind", "TEXT"); ("locations", "TEXT[]");
         ("multimedia", "INTEGER[]"); ("codes", "VARCHAR") ] catalogue) =
  Ok [ ("irn", "INTEGER"); ("created", "TIMESTAMP"); ("modified", "TIMESTAMP");
       ("deleted", "TIMESTAMP"); ("properties", "JSONB");
       ("import_date", "INTEGER"); ("kind", "TEXT"); ("locations", "TEXT[]");
       ("multimedia", "INTEGER[]"); ("codes", "VARCHAR") ].
Proof. apply column_types_idempotent. reflexivity. Defined.

Lemma get_column_types_criterion (c : KeemuClass) :
  (∃ types, get_column_types c = Ok types) ↔
  Forall (λ col, starts_with_capital col.2) (columns c).
Proof.
  split.
  - intros [types Htypes%get_column_types_Ok].
    apply Forall2_Forall_l with (Q := λ col, starts_with_capital col.2) in Htypes;
      [done|].
    apply Forall_true. intros ty col [_ Hre]. apply regex_match_starts. by eexists.
  - intros Hall. apply res_map_total. eapply Forall_impl; [exact Hall|].
    intros col [g Hg]%regex_match_starts. simpl. rewrite Hg. by eexists.
Qed.

Section InitialisationFails.
Variable task_id_str : string → gmap string string → string.

(** X16: [__init__] fails fast on the column definitions and on nothing
    else: it returns an instance exactly when every column definition
    starts with a capital letter, and otherwise raises the
    [AttributeError] of the failed match on a definition that does not. *)
Theorem init_fails_fast (c : KeemuClass) (d : Z) (l : option Z) :
  ((∃ self, __init__ task_id_str c d l = Ok self) ↔
   Forall (λ col, starts_with_capital col.2) (columns c)) ∧
  (∀ e, __init__ task_id_str c d l = Raise e →
     e = AttributeError "group" ∧
     ∃ col, col ∈ columns c ∧ ¬ starts_with_capital col.2).
Proof.
  split.
  - rewrite <- get_column_types_criterion. unfold __init__.
    destruct (get_column_types c) as [types|e]; simpl.
    + split; by eexists.
    + split; by intros [? ?].
  - intros e. unfold __init__.
    destruct (get_column_types c) as [types|e'] eqn:Htypes; simpl; [done|].
    intros [= ->]. unfold get_column_types in Htypes.
    apply res_map_Raise in Htypes as (col & Hin & Hcol).
    destruct (regex_match col.2) as [g|] eqn:Hre; [done|].
    injection Hcol as <-. split; [done|]. exists col. split; [done|].
    intros [g Hg]%regex_match_starts. congruence.
Qed.
End InitialisationFails.

Lemma init_fails_fast_witness :
  (∃ self, __init__ joined_task_id catalogue 20240101 None = Ok self) ∧
  ∃ col, col ∈ columns (with_columns [("locations", "text[]")] catalogue) ∧
    ¬ starts_with_capital col.2.
Proof.
  split.
  - apply (proj1 (init_fails_fast joined_task_id catalogue 20240101 None)).
    repeat constructor; by eexists _, _.
  - apply (proj2 (init_fails_fast joined_task_id
                    (with_columns [("locations", "text[]")] catalogue) 20240101 None)
             (AttributeError "group")).
    reflexivity.
Defined.

(** ** More on the task identity *)

(** X17: the parameters that identify a task.  When the task class
    declares no parameter named [date] and no significant parameter named
    [limit], the parameters handed to [task_id_str] hold the date, written
    in decimal, and hold no limit; so tasks of one class with different
    dates are given different parameters. *)
Theorem identity_parameters (c : KeemuClass) (d : Z) (l : option Z) :
  ("date" ∉ param_name <$> task_params c) →
  (∀ p, p ∈ task_params c → param_name p = "limit" → significant p = false) →
  to_str_params true (param_kwargs c d l) !! "date" = Some (str_int d) ∧
  to_str_params true (param_kwargs c d l) !! "limit" = None ∧
  ∀ d' l',
    to_str_params true (param_kwargs c d l) =
    to_str_params true (param_kwargs c d' l') → d = d'.
Proof.
  intros Hdate Hlimit.
  assert (∀ d l, to_str_params true (param_kwargs c d l) !! "date" = Some (str_int d))
    as Hheld.
  { intros d0 l0. apply to_str_params_significant. by left. }
  split; [apply Hheld|]. split.
  - apply eq_None_not_Some. intros [value Hvalue].
    apply to_str_params_significant in Hvalue
      as [([=] & _) | (p & (before & after & Heq & _) & Hsig & Hname & _)].
    rewrite (Hlimit p) in Hsig; [done| |done].
    rewrite Heq. apply elem_of_app. right. left.
  - intros d' l' Heq. pose proof (Hheld d l) as H1. rewrite Heq, Hheld in H1.
    injection H1 as H1. symmetry. by apply (inj pretty).
Qed.

Lemma identity_parameters_witness :
  to_str_params true (param_kwargs guarded_catalogue 20240101 (Some 5)) !! "date" =
    Some "20240101" ∧
  to_str_params true (param_kwargs guarded_catalogue 20240101 (Some 5)) !! "limit" =
    None.
Proof.
  destruct (identity_parameters guarded_catalogue 20240101 (Some 5))
    as (Hdate & Hlimit & _).
  - not_in_list.
  - intros p Hin. apply list_elem_of_singleton in Hin as ->. done.
  - split; [exact Hdate | exact Hlimit].
Defined.

(** ** The command that drops all tables *)

Section DropTablesFacts.
Variable db_drop_table : string → res unit.

Lemma cmd_for_map {A} (f : A → string) (l : list A) :
  cmd_for (λ x, call_db_drop_table db_drop_table (f x)) l =
  cmd_for (call_db_drop_table db_drop_table) (f <$> l).
Proof. induction l as [|x l IH]; [done|]. simpl. by rewrite IH. Qed.

Lemma cmd_for_app (l1 l2 : list string) :
  cmd_for (call_db_drop_table db_drop_table) (l1 ++ l2) =
  (let* _ := cmd_for (call_db_drop_table db_drop_table) l1 in
   cmd_for (call_db_drop_table db_drop_table) l2)%cmd.
Proof.
  induction l1 as [|x l1 IH]; simpl.
  - by destruct (cmd_for _ l2).
  - rewrite IH. unfold call_db_drop_table, cmd_bind.
    destruct (db_drop_table x) as [[]|e]; [|done].
    destruct (cmd_for _ l1) as [done1 [[]|e1]]; [|done].
    by destruct (cmd_for _ l2).
Qed.

Lemma cmd_for_all_dropped (names : list string) :
  Forall (λ name, db_drop_table name = Ok tt) names →
  cmd_for (call_db_drop_table db_drop_table) names = (DropTable <$> names, Ok tt).
Proof.
  induction 1 as [|name names Hname _ IH]; [done|].
  cbn [cmd_for]. rewrite IH. unfold call_db_drop_table, cmd_bind. by rewrite Hname.
Qed.

Lemma cmd_for_first_raise (dropped rest : list string) (name : string) (e : exn) :
  Forall (λ name, db_drop_table name = Ok tt) dropped →
  db_drop_table name = Raise e →
  cmd_for (call_db_drop_table db_drop_table) (dropped ++ name :: rest) =
    (DropTable <$> (dropped ++ [name]), Raise e).
Proof.
  intros Hdropped Hraise. rewrite cmd_for_app, (cmd_for_all_dropped _ Hdropped).
  cbn [cmd_for]. unfold call_db_drop_table, cmd_bind. rewrite Hraise.
  by rewrite fmap_app.
Qed.

(** The tables of a list, up to the first one that cannot be dropped. *)
Lemma first_raise (names : list string) :
  Forall (λ name, db_drop_table name = Ok tt) names ∨
  ∃ dropped name rest e,
    names = dropped ++ name :: rest ∧
    Forall (λ name, db_drop_table name = Ok tt) dropped ∧
    db_drop_table name = Raise e.
Proof.
  induction names as [|name names IH]; [left; constructor|].
  destruct (db_drop_table name) as [[]|e] eqn:Hname.
  - destruct IH as [Hall | (dropped & name' & rest & e & -> & Hdropped & Hraise)].
    + left. by constructor.
    + right. exists (name :: dropped), name', rest, e.
      split; [done|]. split; [by constructor | done].
  - right. by exists [], name, names, e.
Qed.

Lemma drop_tables_confirmed (EcatalogueTask ETaxonomyTask EMultimediaTask : KeemuClass)
    (foreign_keys : list string) :
  drop_tables db_drop_table true EcatalogueTask ETaxonomyTask EMultimediaTask
    foreign_keys =
  (let* _ := cmd_emit Connect in
   let* _ :=
     cmd_for (call_db_drop_table db_drop_table)
       (drop_targets EcatalogueTask ETaxonomyTask EMultimediaTask foreign_keys) in
   let* _ := cmd_emit Commit in
   cmd_emit Close)%cmd.
Proof.
  unfold drop_tables, drop_targets. rewrite cmd_for_map. simpl.
  unfold call_db_drop_table, cmd_bind, cmd_emit, cmd_ret. simpl.
  destruct (db_drop_table "table_updates") as [[]|e0]; [|done].
  destruct (db_drop_table (module_name EcatalogueTask)) as [[]|e1]; [|done].
  destruct (db_drop_table (module_name ETaxonomyTask)) as [[]|e2]; [|done].
  destruct (db_drop_table (module_name EMultimediaTask)) as [[]|e3]; [|done].
  simpl.
  by destruct (cmd_for _ foreign_keys) as [done1 [[]|e4]].
Qed.

(** X18: what [drop_tables] does on the database.  When the question is
    answered with no, it opens the connection and does nothing else.  When
    it is answered with yes and every table can be dropped, it drops
    [table_updates], then the tables of the three modules, then the tables
    of the foreign keys, each once and in this order, commits and closes
    the connection.  When a table cannot be dropped, the tables before it
    have been dropped, the error of that table is raised, and the command
    neither commits nor closes the connection. *)
Theorem drop_tables_trace (answer : bool)
    (EcatalogueTask ETaxonomyTask EMultimediaTask : KeemuClass)
    (foreign_keys : list string) :
  (answer = false →
     drop_tables db_drop_table answer EcatalogueTask ETaxonomyTask EMultimediaTask
       foreign_keys = ([Connect], Ok tt)) ∧
  (answer = true →
     Forall (λ name, db_drop_table name = Ok tt)
       (drop_targets EcatalogueTask ETaxonomyTask EMultimediaTask foreign_keys) →
     drop_tables db_drop_table answer EcatalogueTask ETaxonomyTask EMultimediaTask
       foreign_keys =
     (Connect ::
        (DropTable <$>
           drop_targets EcatalogueTask ETaxonomyTask EMultimediaTask foreign_keys) ++
        [Commit; Close], Ok tt)) ∧
  (∀ dropped name rest e,
     answer = true →
     drop_targets EcatalogueTask ETaxonomyTask EMultimediaTask foreign_keys =
       dropped ++ name :: rest →
     Forall (λ name, db_drop_table name = Ok tt) dropped →
     db_drop_table name = Raise e →
     drop_tables db_drop_table answer EcatalogueTask ETaxonomyTask EMultimediaTask
       foreign_keys =
     (Connect :: (DropTable <$> (dropped ++ [name])), Raise e)).
Proof.
  split; [|split].
  - by intros ->.
  - intros -> Hall. rewrite drop_tables_confirmed, (cmd_for_all_dropped _ Hall).
    done.
  - intros dropped name rest e -> Heq Hdropped Hraise.
    rewrite drop_tables_confirmed, Heq,
      (cmd_for_first_raise _ _ _ e Hdropped Hraise).
    done.
Qed.

(** X19: [drop_tables] commits only what was asked for and only when all
    of it worked.  Every table it drops is one of [table_updates], the
    three module tables and the foreign-key tables, and is dropped only
    after a yes; the commit happens exactly when the answer was yes and
    every one of these tables could be dropped; the connection is closed
    exactly when the commit happened; and the command raises exactly when
    the answer was yes and some table could not be dropped. *)
Theorem drop_tables_commit (answer : bool)
    (EcatalogueTask ETaxonomyTask EMultimediaTask : KeemuClass)
    (foreign_keys : list string) (trace : list db_event) (result : res unit) :
  drop_tables db_drop_table answer EcatalogueTask ETaxonomyTask EMultimediaTask
    foreign_keys = (trace, result) →
  (∀ name, DropTable name ∈ trace →
     answer = true ∧
     name ∈ drop_targets EcatalogueTask ETaxonomyTask EMultimediaTask foreign_keys) ∧
  (Commit ∈ trace ↔
   answer = true ∧
   Forall (λ name, db_drop_table name = Ok tt)
     (drop_targets EcatalogueTask ETaxonomyTask EMultimediaTask foreign_keys)) ∧
  (Close ∈ trace ↔ Commit ∈ trace) ∧
  (result = Ok tt ↔ answer = false ∨ Commit ∈ trace).
Proof.
  intros Hrun. destruct answer.
  - rewrite drop_tables_confirmed in Hrun. revert Hrun.
    generalize (drop_targets EcatalogueTask ETaxonomyTask EMultimediaTask foreign_keys).
    intros targets Hrun.
    destruct (first_raise targets)
      as [Hall | (dropped & name & rest & e & Heq & Hdropped & Hraise)].
    + rewrite (cmd_for_all_dropped _ Hall) in Hrun. simpl in Hrun.
      injection Hrun as <- <-.
      assert (Commit ∈ Connect :: (DropTable <$> targets) ++ [Commit; Close]) as Hc.
      { right. apply elem_of_app. right. left. }
      assert (Close ∈ Connect :: (DropTable <$> targets) ++ [Commit; Close]) as Hcl.
      { right. apply elem_of_app. right. right. left. }
      split; [|split; [|split]]; [|done|done|split; [by right | done]].
      intros name Hin. split; [done|].
      apply elem_of_cons in Hin as [[=] | Hin].
      apply elem_of_app in Hin as [Hin | Hin].
      * apply list_elem_of_fmap in Hin as (name' & [= ->] & Hin). done.
      * apply elem_of_cons in Hin as [[=] | Hin].
        apply list_elem_of_singleton in Hin. done.
    + rewrite Heq, (cmd_for_first_raise _ _ _ e Hdropped Hraise) in Hrun.
      simpl in Hrun. injection Hrun as <- <-.
      assert (∀ ev, (∀ name', ev ≠ DropTable name') → ev ≠ Connect →
                ev ∉ Connect :: (DropTable <$> dropped ++ [name])) as Hnot.
      { intros ev Hdrop Hconn Hin. apply elem_of_cons in Hin as [-> | Hin]; [done|].
        apply list_elem_of_fmap in Hin as (name' & -> & _). by eapply Hdrop. }
      assert (Commit ∉ Connect :: (DropTable <$> dropped ++ [name])) as Hc
        by (by apply Hnot).
      assert (Close ∉ Connect :: (DropTable <$> dropped ++ [name])) as Hcl
        by (by apply Hnot).
      split; [|split; [|split]].
      * intros name' Hin. split; [done|].
        apply elem_of_cons in Hin as [[=] | Hin].
        apply list_elem_of_fmap in Hin as (name'' & [= ->] & Hin).
        rewrite Heq. apply elem_of_app in Hin as [Hin | Hin%list_elem_of_singleton].
        -- apply elem_of_app. by left.
        -- subst. apply elem_of_app. right. left.
      * split; [done|]. intros [_ Hall]. rewrite Heq in Hall.
        apply Forall_app in Hall as [_ Hall]. apply Forall_cons in Hall as [Hname _].
        congruence.
      * split; done.
      * split; [done|]. intros [[=] | Hin]. done.
  - simpl in Hrun. injection Hrun as <- <-.
    split; [|split; [|split]].
    + intros name Hin. apply list_elem_of_singleton in Hin. done.
    + split; [|by intros [[=] _]]. intros Hin. apply list_elem_of_singleton in Hin. done.
    + split; intros Hin; apply list_elem_of_singleton in Hin; done.
    + split; [by left | done].
Qed.
End DropTablesFacts.

Lemma drop_tables_trace_witness :
  drop_tables (λ _, Ok tt) true catalogue registry guarded_catalogue ["gbif"] =
    ([ Connect; DropTable "table_updates"; DropTable "catalogue";
       DropTable "registry"; DropTable "catalogue"; DropTable "gbif";
       Commit; Close ], Ok tt) ∧
  drop_tables (locked "registry") true catalogue registry guarded_catalogue ["gbif"] =
    ([ Connect; DropTable "table_updates"; DropTable "catalogue";
       DropTable "registry" ], Raise (OperatorError "table is locked")).
Proof.
  split.
  - apply (proj1 (proj2 (drop_tables_trace (λ _, Ok tt) true catalogue registry
                           guarded_catalogue ["gbif"]))); [reflexivity|].
    repeat constructor.
  - apply (proj2 (proj2 (drop_tables_trace (locked "registry") true catalogue registry
                           guarded_catalogue ["gbif"]))
             ["table_updates"; "catalogue"] "registry" ["catalogue"; "gbif"]);
      [reflexivity | reflexivity | repeat constructor | reflexivity].
Defined.

Lemma drop_tables_commit_witness :
  Commit ∈ [ Connect; DropTable "table_updates"; DropTable "catalogue";
             DropTable "registry"; DropTable "catalogue"; DropTable "gbif";
             Commit; Close ] ↔
  true = true ∧
  Forall (λ name, (λ _ : string, Ok tt) name = Ok tt)
    (drop_targets catalogue registry guarded_catalogue ["gbif"]).
Proof.
  apply (drop_tables_commit (λ _, Ok tt) true catalogue registry guarded_catalogue
           ["gbif"] _ (Ok tt)).
  reflexivity.
Defined.

(** A task class that declares [date] anew replaces the parameter of the
    mixin: declared as not significant, the date no longer identifies the
    task. *)
Example redeclared_date_is_not_significant :
  to_str_params true (param_kwargs catalogue 20240101 (Some 5)) =
    {[ "date" := "20240101" ]} ∧
  to_str_params true (param_kwargs undated_catalogue 20240101 (Some 5)) = ∅ ∧
  to_str_params false (param_kwargs undated_catalogue 20240101 (Some 5)) =
    {[ "date" := "20240101"; "limit" := "5" ]}.
Proof. split_and!; reflexivity. Qed.
